(** * dn-check: domain name availability checker

    A shallow embedding of the Go program: the resolver adapter
    [isDomainNameAvailable], the probe goroutine [checkDomains], the
    sequential scheduler [run], the file renderer [SpoolOutputToFile] and
    the concurrent fan-out / fan-in of [main], followed by the properties
    of the specification that concern them. *)

From Stdlib Require Import Ascii String List Arith Lia Permutation.
From stdpp Require Import base strings list gmap pretty.

Open Scope string_scope.
Open Scope list_scope.

(** ** Data model *)

(** [Options]: the command line options, with the two lists extracted
    from them. *)
Record Options := mkOptions {
  FileName : string;
  Names : string;
  TLDs : string;
  Output : string;
  Verbose : bool;
  Json : bool;
  Help : bool;
  TLDsList : list string;
  NamesList : list string
}.

(** [TLD]: the availability of one top-level domain; nested in [Result]. *)
Record TLD := mkTLD {
  TLDName : string;
  IsAvailable : bool
}.

(** [Result]: the outcome of a check for one name. A nil slice and an
    empty slice are both the empty list: the program never builds an
    empty slice that is not nil. *)
Record Result := mkResult {
  Name : string;
  TLDList : list TLD
}.

#[global] Instance TLD_eq_dec : EqDecision TLD.
Proof. solve_decision. Defined.

#[global] Instance Result_eq_dec : EqDecision Result.
Proof. solve_decision. Defined.

(** Go's [net.DNSError], the error type that [net.LookupHost] returns for
    every failure of the resolution itself: no such host, a timeout, a
    server failure. The three flags tell these apart. *)
Record DNSError := mkDNSError {
  Err : string;
  DNSName : string;
  Server : string;
  IsTimeout : bool;
  IsTemporary : bool;
  IsNotFound : bool
}.

(** A Go [error] value as this program can tell it apart: a
    [*net.DNSError], or an error of any other dynamic type, given by its
    message. *)
Inductive error :=
  | ErrDNS (e : DNSError)
  | ErrOther (msg : string).

(** The [Error()] method. *)
Definition Error (e : error) : string :=
  match e with
  | ErrDNS d =>
      let s := "lookup " +:+ DNSName d in
      let s := if decide (Server d = "") then s else s +:+ " on " +:+ Server d in
      s +:+ ": " +:+ Err d
  | ErrOther msg => msg
  end.

(** What [net.LookupHost] returns: the addresses and the error ([None] is
    Go's nil). *)
Definition LookupResult : Type := list string * option error.

(** The effects a piece of the program performs, in order: a query sent
    to the resolver, a write to standard output, a send on the results
    channel and the [Done] of the wait group. *)
Inductive event :=
  | EvLookup (domain : string)
  | EvPrint (text : string)
  | EvSend (r : Result)
  | EvDone.

(** ** The resolver adapter and the probe task *)

Section Resolver.

(** The platform's resolver, an opaque capability. *)
Variable LookupHost : string -> LookupResult.

(** Lookup a domain name. Return true if the name is available, otherwise
    false. *)
Definition isDomainNameAvailable (domain : string) : bool * option error :=
  let '(_, err) := LookupHost domain in
  match err with
  | Some e =>
      match e with
      | ErrDNS _ => (true, None)
      | _ => (false, Some e)
      end
  | None => (false, None)
  end.

(** The loop of [checkDomains]: the events it performs and the list
    [tldList] it ends with. An error skips the append ([continue]). *)
Fixpoint checkDomains_loop (name : string) (tlds : list string) (tldList : list TLD)
  : list event * list TLD :=
  match tlds with
  | [] => ([], tldList)
  | tld :: rest =>
      let domain := name +:+ "." +:+ tld in
      match isDomainNameAvailable domain with
      | (_, Some err) =>
          let '(evs, final) := checkDomains_loop name rest tldList in
          (EvLookup domain
             :: EvPrint ("Error checking availability for domain " +:+ domain
                           +:+ ": " +:+ Error err)
             :: evs, final)
      | (available, None) =>
          let '(evs, final) :=
            checkDomains_loop name rest (tldList ++ [mkTLD tld available]) in
          (EvLookup domain :: evs, final)
      end
  end.

(** [checkDomains name tlds results wg], as the events the goroutine
    performs: the loop, the send of the one [Result], and the deferred
    [wg.Done()] on return. *)
Definition checkDomains (name : string) (tlds : list string) : list event :=
  let '(evs, tldList) := checkDomains_loop name tlds [] in
  evs ++ [EvSend (mkResult name tldList); EvDone].

(** The [Result] a goroutine sends. *)
Definition checkDomains_result (name : string) (tlds : list string) : Result :=
  mkResult name (snd (checkDomains_loop name tlds [])).

(** The verdict of one probe, as the loop body appends it or not. *)
Definition verdict (name tld : string) : list TLD :=
  match isDomainNameAvailable (name +:+ "." +:+ tld) with
  | (_, Some _) => []
  | (available, None) => [mkTLD tld available]
  end.

(** The probe of [name] under [tld] returns no error. *)
Definition probe_ok (name tld : string) : Prop :=
  snd (isDomainNameAvailable (name +:+ "." +:+ tld)) = None.

(** The probe of [name] under [tld] returns the error [e]. *)
Definition probe_fails (e : error) (name tld : string) : Prop :=
  snd (isDomainNameAvailable (name +:+ "." +:+ tld)) = Some e.

(** What [net.LookupHost] promises about its errors: each is a
    [*net.DNSError]. *)
Definition dns_errors_only : Prop :=
  forall domain e, snd (LookupHost domain) = Some e -> exists d, e = ErrDNS d.

End Resolver.

(** ** Rendering *)

(** The line feed and the double quote, as one-character strings. *)
Definition nl : string := String (ascii_of_nat 10) EmptyString.
Definition dquote : string := String (ascii_of_nat 34) EmptyString.

(** [strings.Join]. *)
Fixpoint join (sep : string) (l : list string) : string :=
  match l with
  | [] => ""
  | [s] => s
  | s :: rest => s +:+ sep +:+ join sep rest
  end.

(** The verb [%t]. *)
Definition fmt_bool (b : bool) : string := if b then "true" else "false".

(** Whether the byte [c] lies between [lo] and [hi]. *)
Definition byte_in (lo hi : nat) (c : ascii) : bool :=
  ((lo <=? nat_of_ascii c) && (nat_of_ascii c <=? hi))%nat.

(** The number of bytes of the rune that starts at the byte [c], which
    the bytes [rest] follow, as package [unicode/utf8] decodes it: the
    length of a valid UTF-8 encoding (no overlong form, no surrogate,
    nothing above U+10FFFF), and 1 for a byte that starts none. *)
Definition rune_width (c : ascii) (rest : string) : nat :=
  let b := nat_of_ascii c in
  let two :=
    match rest with
    | String c1 _ => if byte_in 128 191 c1 then 2 else 1
    | _ => 1
    end in
  let three (lo hi : nat) :=
    match rest with
    | String c1 (String c2 _) =>
        if byte_in lo hi c1 && byte_in 128 191 c2 then 3 else 1
    | _ => 1
    end in
  let four (lo hi : nat) :=
    match rest with
    | String c1 (String c2 (String c3 _)) =>
        if byte_in lo hi c1 && byte_in 128 191 c2 && byte_in 128 191 c3 then 4 else 1
    | _ => 1
    end in
  if (b <? 194)%nat then 1
  else if (b <? 224)%nat then two
  else if (b =? 224)%nat then three 160 191
  else if (b =? 237)%nat then three 128 159
  else if (b <? 240)%nat then three 128 191
  else if (b =? 240)%nat then four 144 191
  else if (b <? 244)%nat then four 128 191
  else if (b =? 244)%nat then four 128 143
  else 1.

(** The runes of a string, counted from its first byte; [skip] bytes
    belong to the rune counted last. *)
Fixpoint rune_count (skip : nat) (s : string) : nat :=
  match s with
  | EmptyString => 0
  | String c rest =>
      match skip with
      | S k => rune_count k rest
      | O => S (rune_count (rune_width c rest - 1) rest)
      end
  end.

(** [utf8.RuneCountInString]. *)
Definition RuneCountInString (s : string) : nat := rune_count 0 s.

(** The verb [%-Ns]: [s] padded with spaces on the right up to width
    [w], which [fmt] counts in runes. *)
Definition pad_right (w : nat) (s : string) : string :=
  s +:+ string_of_list_ascii (repeat " "%char (w - RuneCountInString s)).

(** The line [main] prints for one verdict of a received [Result]. *)
Definition main_line (result : Result) (tld : TLD) : string :=
  if IsAvailable tld
  then Name result +:+ "." +:+ TLDName tld +:+ " is available" +:+ nl
  else Name result +:+ "." +:+ TLDName tld +:+ " is not available" +:+ nl.

(** The line [SpoolOutputToFile] writes for one verdict: the format
    [%s.%s : %t] and a line feed. *)
Definition spool_line (r : Result) (t : TLD) : string :=
  Name r +:+ "." +:+ TLDName t +:+ " : " +:+ fmt_bool (IsAvailable t) +:+ nl.

Section Json.

(** The string encoder of [encoding/json] (quoting and escaping). *)
Variable json_string : string -> string.

Definition json_key (k : string) : string := dquote +:+ k +:+ dquote.

(** Compact form, as [Encoder.Encode] writes it. A nil slice is [null]. *)
Definition json_TLD (t : TLD) : string :=
  "{" +:+ json_key "tld" +:+ ":" +:+ json_string (TLDName t) +:+ ","
      +:+ json_key "is_available" +:+ ":" +:+ fmt_bool (IsAvailable t) +:+ "}".

Definition json_TLDs (l : list TLD) : string :=
  match l with
  | [] => "null"
  | _ => "[" +:+ join "," (map json_TLD l) +:+ "]"
  end.

Definition json_Result (r : Result) : string :=
  "{" +:+ json_key "name" +:+ ":" +:+ json_string (Name r) +:+ ","
      +:+ json_key "tlds" +:+ ":" +:+ json_TLDs (TLDList r) +:+ "}".

Definition json_Results (l : list Result) : string :=
  match l with
  | [] => "null"
  | _ => "[" +:+ join "," (map json_Result l) +:+ "]"
  end.

(** [json.NewEncoder(f).Encode(result)]: the compact form and a line feed. *)
Definition Encode (result : list Result) : string := json_Results result +:+ nl.

(** Indented form, as [json.MarshalIndent(v, "", "  ")] gives it; [d] is
    the depth of the value. *)
Fixpoint indent (d : nat) : string :=
  match d with
  | O => ""
  | S d' => "  " +:+ indent d'
  end.

Definition json_TLD_indent (d : nat) (t : TLD) : string :=
  "{" +:+ nl
    +:+ indent (S d) +:+ json_key "tld" +:+ ": " +:+ json_string (TLDName t) +:+ "," +:+ nl
    +:+ indent (S d) +:+ json_key "is_available" +:+ ": " +:+ fmt_bool (IsAvailable t) +:+ nl
    +:+ indent d +:+ "}".

Definition json_TLDs_indent (d : nat) (l : list TLD) : string :=
  match l with
  | [] => "null"
  | _ => "[" +:+ nl
           +:+ join ("," +:+ nl) (map (fun t => indent (S d) +:+ json_TLD_indent (S d) t) l)
           +:+ nl +:+ indent d +:+ "]"
  end.

Definition json_Result_indent (d : nat) (r : Result) : string :=
  "{" +:+ nl
    +:+ indent (S d) +:+ json_key "name" +:+ ": " +:+ json_string (Name r) +:+ "," +:+ nl
    +:+ indent (S d) +:+ json_key "tlds" +:+ ": " +:+ json_TLDs_indent (S d) (TLDList r) +:+ nl
    +:+ indent d +:+ "}".

Definition MarshalIndent (l : list Result) : string :=
  match l with
  | [] => "null"
  | _ => "[" +:+ nl
           +:+ join ("," +:+ nl) (map (fun r => indent 1 +:+ json_Result_indent 1 r) l)
           +:+ nl +:+ "]"
  end.

End Json.

(** ** The world of the sequential code *)

(** The file system: the content of each file, the paths that cannot be
    opened for writing, and the size a file may grow to. *)
Record FS := mkFS {
  contents : gmap string string;
  locked : gset string;
  quota : nat
}.

(** The console and resolver log, and the disk. *)
Record World := mkWorld {
  console : list event;
  disk : FS
}.

(** Sequential code: a state and error monad over the world. The world
    keeps what was done before an error. *)
Definition io (A : Type) : Type := World -> World * (error + A).

Definition io_ret {A} (a : A) : io A := fun w => (w, inr a).

Definition io_bind {A B} (c : io A) (k : A -> io B) : io B :=
  fun w =>
    match c w with
    | (w', inr a) => k a w'
    | (w', inl e) => (w', inl e)
    end.

Definition throw {A} (e : error) : io A := fun w => (w, inl e).

#[global] Instance io_mret : MRet io := @io_ret.
#[global] Instance io_mbind : MBind io := fun A B k c => io_bind c k.

(** A [range] loop whose body may return early with an error. *)
Fixpoint for_each {A} (l : list A) (body : A -> io unit) : io unit :=
  match l with
  | [] => io_ret tt
  | a :: rest => body a ;; for_each rest body
  end.

Definition when (b : bool) (c : io unit) : io unit :=
  if b then c else io_ret tt.

(** [fmt.Print] and the like: one write to standard output. *)
Definition Print (text : string) : io unit :=
  fun w => (mkWorld (console w ++ [EvPrint text]) (disk w), inr tt).

(** [os.Create]: the file is created or truncated. *)
Definition os_Create (path : string) : io unit :=
  fun w =>
    let fs := disk w in
    if decide (path ∈ locked fs)
    then (w, inl (ErrOther ("open " +:+ path +:+ ": permission denied")))
    else (mkWorld (console w) (mkFS (<[path := ""]> (contents fs)) (locked fs) (quota fs)),
          inr tt).

(** A write to the open file [path]: the data is appended. When the
    file would grow past the quota the write is short: the bytes that
    still fit are appended, and the error is returned. *)
Definition file_Write (path : string) (data : string) : io unit :=
  fun w =>
    let fs := disk w in
    match contents fs !! path with
    | Some old =>
        if decide (String.length (old +:+ data) <= quota fs)
        then (mkWorld (console w)
                (mkFS (<[path := old +:+ data]> (contents fs)) (locked fs) (quota fs)),
              inr tt)
        else (mkWorld (console w)
                (mkFS (<[path := old +:+ substring 0 (quota fs - String.length old) data]>
                         (contents fs))
                   (locked fs) (quota fs)),
              inl (ErrOther ("write " +:+ path +:+ ": no space left on device")))
    | None => (w, inl (ErrOther ("write " +:+ path +:+ ": file already closed")))
    end.

(** [os.WriteFile]. *)
Definition os_WriteFile (path : string) (data : string) : io unit :=
  os_Create path ;; file_Write path data.

(** The chunks written one after the other, as one text. *)
Definition text_of (chunks : list string) : string := foldr String.append "" chunks.

(** The world once the file [path] holds [data]. *)
Definition with_content (path data : string) (w : World) : World :=
  mkWorld (console w)
    (mkFS (<[path := data]> (contents (disk w))) (locked (disk w)) (quota (disk w))).

(** ** The sequential scheduler and the file renderer *)

Section Sequential.

Variable LookupHost : string -> LookupResult.

(** [color.GreenString] and [color.RedString] of the colour library. *)
Variable GreenString RedString : string -> string.

Variable json_string : string -> string.

(** A call of [isDomainNameAvailable], with the query it sends logged. *)
Definition Lookup (domain : string) : io (bool * option error) :=
  fun w => (mkWorld (console w ++ [EvLookup domain]) (disk w),
            inr (isDomainNameAvailable LookupHost domain)).

(** [VerboseOutput]: helper function to print YES/NO. *)
Definition VerboseOutput (s : bool) : io unit :=
  if s then Print (GreenString "YES  ") else Print (RedString "NO   ").

(** [PrintVerboseHeader]: prints the header for the verbose output. *)
Definition PrintVerboseHeader (opts : Options) : io unit :=
  Print ("Checking " +:+ pretty (length (NamesList opts)) +:+ " names for "
           +:+ pretty (length (TLDsList opts)) +:+ " TLDs" +:+ nl) ;;
  Print "Names       " ;;
  for_each (TLDsList opts) (fun t => Print (" " +:+ pad_right 4 t)) ;;
  Print nl.

(** The inner loop of [run]: the TLDs still to check for [name] and the
    list [tlds] built so far. An error ends [run] at once. *)
Fixpoint run_tlds (opts : Options) (name : string) (todo : list string) (tlds : list TLD)
  : io (list TLD) :=
  match todo with
  | [] => mret tlds
  | tld :: rest =>
      r ← Lookup (name +:+ "." +:+ tld);
      match r with
      | (_, Some err) => Print (Error err +:+ nl) ;; throw err
      | (dnAvailable, None) =>
          when (Verbose opts) (VerboseOutput dnAvailable) ;;
          run_tlds opts name rest (tlds ++ [mkTLD tld dnAvailable])
      end
  end.

(** The outer loop of [run]: the names still to check and the list
    [Results] built so far. *)
Fixpoint run_names (opts : Options) (todo : list string) (Results : list Result)
  : io (list Result) :=
  match todo with
  | [] => mret Results
  | name :: rest =>
      if decide (name = "")
      then (* skip empty lines *) run_names opts rest Results
      else
        when (Verbose opts) (Print (pad_right 12 name +:+ " ")) ;;
        tlds ← run_tlds opts name (TLDsList opts) [];
        when (Verbose opts) (Print nl) ;;
        run_names opts rest (Results ++ [mkResult name tlds])
  end.

(** [run]: [inr Results] is Go's [(Results, nil)], [inl err] is
    [(nil, err)]. *)
Definition run (opts : Options) : io (list Result) :=
  when (Verbose opts) (PrintVerboseHeader opts) ;;
  run_names opts (NamesList opts) [].

(** [SpoolOutputToFile]: output results to a file. The deferred [Close]
    of the file it created succeeds. *)
Definition SpoolOutputToFile (outputFileName : string) (result : list Result)
    (jsonOutput : bool) : io unit :=
  os_Create outputFileName ;;
  if jsonOutput
  then file_Write outputFileName (Encode json_string result)
  else for_each result (fun r =>
         for_each (TLDList r) (fun t => file_Write outputFileName (spool_line r t))).

End Sequential.

(** The text [SpoolOutputToFile] writes. *)
Definition spool_text (json_string : string -> string) (result : list Result)
    (jsonOutput : bool) : string :=
  if jsonOutput then Encode json_string result
  else text_of (flat_map (fun r => map (spool_line r) (TLDList r)) result).

(** The world a run starts in: nothing printed yet. *)
Definition start (fs : FS) : World := mkWorld [] fs.

(** The queries sent to the resolver, in order. *)
Definition lookups (evs : list event) : list string :=
  flat_map (fun ev => match ev with EvLookup d => [d] | _ => [] end) evs.

(** The results sent on the channel, in order. *)
Definition sends (evs : list event) : list Result :=
  flat_map (fun ev => match ev with EvSend r => [r] | _ => [] end) evs.

(** The texts written to standard output, in order. *)
Definition prints (evs : list event) : list string :=
  flat_map (fun ev => match ev with EvPrint t => [t] | _ => [] end) evs.

(** The [Done]s among some events. *)
Definition dones (evs : list event) : list unit :=
  flat_map (fun ev => match ev with EvDone => [tt] | _ => [] end) evs.

(** ** The concurrent fan-out and fan-in of [main] *)

(** Who performed an event: [main], or the goroutine spawned [i]-th. *)
Inductive actor :=
  | Main
  | Probe (i : nat).

(** The state of a run of [main] once the goroutines are spawned.
    [goroutines] holds, in spawn order, the events each [checkDomains]
    goroutine has still to perform; [wg] is the counter of the wait
    group; [closed] tells whether the results channel is closed;
    [trace] is what has happened so far; [exited] is the exit status once
    the program has ended. *)
Record State := mkState {
  goroutines : list (list event);
  wg : nat;
  closed : bool;
  jsonResults : list Result;
  trace : list (actor * event);
  files : FS;
  exited : option nat
}.

(** What the scheduler lets run next: a probe goroutine, the goroutine
    that waits for the group and closes the channel, or [main]. *)
Inductive choice :=
  | RunProbe (i : nat)
  | RunCloser
  | RunMain.

(** The events of the probe goroutines in a trace, and those of [main]. *)
Definition probe_events (tr : list (actor * event)) : list event :=
  flat_map (fun ae => match fst ae with Probe _ => [snd ae] | Main => [] end) tr.

Definition main_events (tr : list (actor * event)) : list event :=
  flat_map (fun ae => match fst ae with Main => [snd ae] | Probe _ => [] end) tr.

(** The results [main] has taken from the channel, in order of receipt. *)
Definition received (s : State) : list Result := sends (probe_events (trace s)).

(** The resolver queries made so far. *)
Definition probed (s : State) : list string := lookups (probe_events (trace s)).

(** What [main] itself has written to standard output. *)
Definition presented (s : State) : list string := prints (main_events (trace s)).

Section Concurrent.

Variable LookupHost : string -> LookupResult.
Variable json_string : string -> string.

(** The pairs the two nested loops of [main] go through, in order. *)
Definition main_pairs (opts : Options) : list (string * string) :=
  flat_map (fun name => map (fun tld => (name, tld)) (TLDsList opts)) (NamesList opts).

(** One goroutine per pair: [go checkDomains(name, []string{tld}, ...)]. *)
Definition main_spawn (opts : Options) : list (list event) :=
  map (fun p => checkDomains LookupHost (fst p) [snd p]) (main_pairs opts).

(** The state after the spawning loops: [wg.Add(1)] ran once per
    goroutine. A goroutine that starts before the loops end only makes
    its first steps earlier, which the interleaving below covers. *)
Definition init (opts : Options) (fs : FS) : State :=
  mkState (main_spawn opts) (length (main_spawn opts)) false [] [] fs None.

(** The end of [main], after the [range] loop: the JSON document is
    built from [jsonResults] and written or printed. *)
Definition main_finish (opts : Options) (s : State) : State :=
  if Json opts then
    let jsonData := MarshalIndent json_string (jsonResults s) in
    if decide (Output opts = "")
    then mkState (goroutines s) (wg s) (closed s) (jsonResults s)
           (trace s ++ [(Main, EvPrint (jsonData +:+ nl))]) (files s) (Some 0)
    else
      match os_WriteFile (Output opts) jsonData (start (files s)) with
      | (w, inl err) =>
          mkState (goroutines s) (wg s) (closed s) (jsonResults s)
            (trace s ++ [(Main, EvPrint ("Error writing JSON data to file "
                                           +:+ Output opts +:+ ": " +:+ Error err))])
            (disk w) (Some 1)
      | (w, inr _) =>
          mkState (goroutines s) (wg s) (closed s) (jsonResults s) (trace s) (disk w)
            (Some 0)
      end
  else mkState (goroutines s) (wg s) (closed s) (jsonResults s) (trace s) (files s) (Some 0).

(** A goroutine performs the event [ev] at the head of its list. *)
Definition advance (i : nat) (ev : event) (rest : list event) (s : State) : State :=
  mkState (<[i := rest]> (goroutines s)) (wg s) (closed s) (jsonResults s)
    (trace s ++ [(Probe i, ev)]) (files s) (exited s).

(** The body of the [range] loop for one received result. *)
Definition main_body (opts : Options) (result : Result) (s : State) : State :=
  if Json opts
  then mkState (goroutines s) (wg s) (closed s) (jsonResults s ++ [result])
         (trace s) (files s) (exited s)
  else mkState (goroutines s) (wg s) (closed s) (jsonResults s)
         (trace s ++ map (fun tld => (Main, EvPrint (main_line result tld))) (TLDList result))
         (files s) (exited s).

(** [wg.Done()]. *)
Definition wg_Done (s : State) : option State :=
  match wg s with
  | O => None
  | S n =>
      Some (mkState (goroutines s) n (closed s) (jsonResults s) (trace s) (files s)
              (exited s))
  end.

(** [wg.Wait()] has returned, then [close(results)]. *)
Definition closer (s : State) : option State :=
  if closed s then None
  else match wg s with
       | O => Some (mkState (goroutines s) (wg s) true (jsonResults s) (trace s)
                      (files s) (exited s))
       | S _ => None
       end.

(** One step of the program. A send and its receipt by the [range] loop
    of [main] are one step (the channel has no buffer), taken with the
    body of the loop; the loop ends when the channel is closed. Nothing
    runs once the program has exited; a step that Go would answer with a
    panic (a send on the closed channel, a negative counter) is not
    taken. *)
Definition step (opts : Options) (c : choice) (s : State) : option State :=
  match exited s with
  | Some _ => None
  | None =>
      match c with
      | RunProbe i =>
          match goroutines s !! i with
          | Some (ev :: rest) =>
              match ev with
              | EvSend result =>
                  if closed s then None
                  else Some (main_body opts result (advance i ev rest s))
              | EvDone => wg_Done (advance i ev rest s)
              | _ => Some (advance i ev rest s)
              end
          | _ => None
          end
      | RunCloser => closer s
      | RunMain => if closed s then Some (main_finish opts s) else None
      end
  end.

(** A run under a schedule. *)
Fixpoint exec (opts : Options) (schedule : list choice) (s : State) : option State :=
  match schedule with
  | [] => Some s
  | c :: rest =>
      match step opts c s with
      | Some s' => exec opts rest s'
      | None => None
      end
  end.

(** The states a run of [main] can be in. *)
Definition Reachable (opts : Options) (fs : FS) (s : State) : Prop :=
  exists schedule, exec opts schedule (init opts fs) = Some s.

(** What is left to do: the events of the goroutines, the close of the
    channel and the end of [main]. *)
Definition remaining (s : State) : nat :=
  length (concat (goroutines s))
  + (if closed s then 0 else 1)
  + (match exited s with Some _ => 0 | None => 1 end).

(** How a run in JSON mode ends: the document of the accumulated
    results is printed, or written to the output file. *)
Definition json_final (opts : Options) (fs : FS) (s : State) : Prop :=
  let jsonData := MarshalIndent json_string (jsonResults s) in
  if decide (Output opts = "")
  then presented s = [jsonData +:+ nl] /\ files s = fs /\ exited s = Some 0
  else match os_WriteFile (Output opts) jsonData (start fs) with
       | (w, inl err) =>
           presented s = ["Error writing JSON data to file " +:+ Output opts
                            +:+ ": " +:+ Error err] /\
           files s = disk w /\ exited s = Some 1
       | (w, inr _) => presented s = [] /\ files s = disk w /\ exited s = Some 0
       end.


(** The invariant of the run. *)
Record Inv (opts : Options) (fs : FS) (s : State) : Prop := mkInv {
  inv_events :
    probe_events (trace s) ++ concat (goroutines s) ≡ₚ concat (main_spawn opts);
  inv_wg : wg s = length (dones (concat (goroutines s)));
  inv_shape : Forall (fun g => g = [] \/ last g = Some EvDone) (goroutines s);
  inv_closed : closed s = true -> wg s = 0;
  inv_exited : exited s <> None -> closed s = true;
  inv_json : Json opts = true -> jsonResults s = received s;
  inv_text :
    Json opts = false ->
    presented s = flat_map (fun r => map (main_line r) (TLDList r)) (received s) /\
    files s = fs /\ (exited s = None \/ exited s = Some 0);
  inv_json_running :
    Json opts = true -> exited s = None -> presented s = [] /\ files s = fs;
  inv_json_exited : Json opts = true -> exited s <> None -> json_final opts fs s
}.

End Concurrent.

(** ** The specification's reading of a resolution

    The three outcomes of the resolver contract, and the verdict the
    specification derives from each; [classify] reads an outcome off what
    [net.LookupHost] returned, a definitive not-found being the DNS error
    whose [IsNotFound] flag is set. These two follow the specification's
    words; they are compared with the code below. *)
Inductive Outcome :=
  | Registered
  | NotFound
  | TransientError.

Definition classify (r : LookupResult) : Outcome :=
  match snd r with
  | None => Registered
  | Some (ErrDNS d) => if IsNotFound d then NotFound else TransientError
  | Some (ErrOther _) => TransientError
  end.

Definition verdict_spec (tld : string) (o : Outcome) : list TLD :=
  match o with
  | Registered => [mkTLD tld false]
  | NotFound => [mkTLD tld true]
  | TransientError => []
  end.

(** A resolver whose every query times out. *)
Definition timeout_resolver (domain : string) : LookupResult :=
  ([], Some (ErrDNS (mkDNSError "i/o timeout" domain "192.0.2.53:53" true true false))).

(** A resolver for which every domain is registered. *)
Definition registered_resolver (domain : string) : LookupResult :=
  (["192.0.2.1"], None).

(** A resolver whose query for the one domain [bad] times out, and
    which finds every other domain registered. *)
Definition timeout_at (bad : string) (domain : string) : LookupResult :=
  if decide (domain = bad) then timeout_resolver domain else registered_resolver domain.

(** ** Counting *)

(** How often [x] occurs in [l]. *)
Definition count `{EqDecision A} (x : A) (l : list A) : nat :=
  length (filter (fun y => y = x) l).


(** ** Concrete inputs *)

(** The JSON string encoder on names that need no escaping. *)
Definition plain_quote (s : string) : string := dquote +:+ s +:+ dquote.

(** An empty disk on which a file may hold 4096 bytes. *)
Definition empty_disk : FS := mkFS ∅ ∅ 4096.

(** The options after [-n names -d tlds], with [-j] or without. *)
Definition options_for (json : bool) (names tlds : list string) : Options :=
  mkOptions "" (join "," names) (join "," tlds) "" false json false tlds names.

(** The schedule that lets the goroutines [order] run one after the
    other, each for its [k] events, then closes the channel and ends
    [main]. *)
Definition one_by_one (order : list nat) (k : nat) : list choice :=
  flat_map (fun i => repeat (RunProbe i) k) order ++ [RunCloser; RunMain].

(** A resolver that fails, for the one domain [bad], with an error that
    is not a DNS error, and finds every other domain registered. *)
Definition failing_resolver (bad : string) (domain : string) : LookupResult :=
  if decide (domain = bad)
  then ([], Some (ErrOther "resolver failure"))
  else (["192.0.2.1"], None).

(** The colour functions when the output is no terminal. *)
Definition no_color (s : string) : string := s.

(** ** Further notions *)

(** The events goroutine [i] has performed in a trace, in order. *)
Definition events_of (i : nat) (tr : list (actor * event)) : list event :=
  flat_map (fun ae =>
              match fst ae with
              | Probe j => if decide (j = i) then [snd ae] else []
              | Main => []
              end) tr.

(** The cell of the verbose table for one verdict, the row for one
    result and the header, as the texts written one after the other. *)
Definition verbose_cell (GreenString RedString : string -> string) (t : TLD) : string :=
  if IsAvailable t then GreenString "YES  " else RedString "NO   ".

Definition verbose_row (GreenString RedString : string -> string) (r : Result)
  : list string :=
  (pad_right 12 (Name r) +:+ " ")
    :: map (verbose_cell GreenString RedString) (TLDList r) ++ [nl].

Definition verbose_header (opts : Options) : list string :=
  ("Checking " +:+ pretty (length (NamesList opts)) +:+ " names for "
     +:+ pretty (length (TLDsList opts)) +:+ " TLDs" +:+ nl)
    :: "Names       "
    :: map (fun t => " " +:+ pad_right 4 t) (TLDsList opts) ++ [nl].

(** The domains [run] goes through: those of the non-blank names, each
    under every TLD, in the order of the two loops. *)
Definition run_domains (names tlds : list string) : list string :=
  flat_map (fun name => map (fun tld => name +:+ "." +:+ tld) tlds)
    (filter (fun name => name <> "") names).

(** The writes [SpoolOutputToFile] makes to the file, in order: the one
    JSON document, or one line per verdict. *)
Definition spool_chunks (json_string : string -> string) (result : list Result)
    (jsonOutput : bool) : list string :=
  if jsonOutput
  then [Encode json_string result]
  else flat_map (fun r => map (spool_line r) (TLDList r)) result.

(** ** Reading the options and the names *)

(** [strings.Split] for a separator of one byte, which is how the
    program calls it (a comma or a line feed): the substrings between
    the separators, in order. *)
Fixpoint Split (s : string) (sep : ascii) : list string :=
  match s with
  | EmptyString => [""]
  | String c rest =>
      if decide (c = sep) then "" :: Split rest sep
      else match Split rest sep with
           | first :: others => String c first :: others
           | [] => [String c ""]
           end
  end.

(** [os.ReadFile], and the [os.Open] of a file that is then read. *)
Definition os_ReadFile (path : string) : io string :=
  fun w =>
    match contents (disk w) !! path with
    | Some data => (w, inr data)
    | None => (w, inl (ErrOther ("open " +:+ path +:+ ": no such file or directory")))
    end.

(** The options with the two lists set. *)
Definition with_lists (o : Options) (tlds names : list string) : Options :=
  mkOptions (FileName o) (Names o) (TLDs o) (Output o) (Verbose o) (Json o) (Help o)
    tlds names.

Section ReadOptions.

(** [bufio.Scanner] with its default split function, run over the
    content of a file: the lines it yields and the error it ends with. *)
Variable ScanLines : string -> list string * option error.

(** [strings.TrimSpace]. *)
Variable TrimSpace : string -> string.

(** [readNamesFromFile]: open filename for read and read all lines into
    a list. Returns the list of names. *)
Definition readNamesFromFile (filename : string) : io (list string) :=
  data ← os_ReadFile filename;
  let '(lines, err) := ScanLines data in
  let names := map TrimSpace lines in
  match err with
  | Some e => throw e
  | None => mret names
  end.

(** [readOptions], from the flags [flag.Parse] has set: [inl code] is
    [os.Exit(code)]. [flag.PrintDefaults] writes to standard error,
    which the console does not record. The error of
    [readNamesFromFile] is dropped, and the list is then nil. *)
Definition readOptions (flags : Options) : io (nat + Options) :=
  if Help flags then mret (inl 0)
  else
    let TLDsList := Split (TLDs flags) ","%char in
    if decide (Names flags = "") then
      if decide (FileName flags = "") then
        Print ("Error: No names provided" +:+ nl) ;; mret (inl 1)
      else
        fun w =>
          match readNamesFromFile (FileName flags) w with
          | (w', inr names) => (w', inr (inr (with_lists flags TLDsList names)))
          | (w', inl _) => (w', inr (inr (with_lists flags TLDsList [])))
          end
    else mret (inr (with_lists flags TLDsList (Split (Names flags) ","%char))).

End ReadOptions.

(** The first revision of the program, [main.go]. Its [Options] has no
    [Names] and no [Json] field: they are carried along unused. *)
Module MainGo.

Section Program.

Variable LookupHost : string -> LookupResult.

(** [color.RedString] of the colour library. *)
Variable RedString : string -> string.

(** [strings.ToLower]. *)
Variable ToLower : string -> string.

(** [readNamesFromFile]: the lines of the file, in lower case. *)
Definition readNamesFromFile (filename : string) : io (list string) :=
  d ← os_ReadFile filename;
  mret (Split (ToLower d) (ascii_of_nat 10)).

(** [readOptions], from the flags [flag.Parse] has set. *)
Definition readOptions (flags : Options) : io (nat + Options) :=
  if Help flags || bool_decide (FileName flags = "") then mret (inl 0)
  else
    let TLDsList := Split (TLDs flags) ","%char in
    fun w =>
      match readNamesFromFile (FileName flags) w with
      | (w', inl err) => (Print (Error err +:+ nl) ;; mret (inl 1)) w'
      | (w', inr l) => (w', inr (inr (with_lists flags TLDsList l)))
      end.

(** The body of the inner loop of [run]: an error is printed, and the
    verdict line is printed in either case. *)
Definition check (name tld : string) : io unit :=
  io_bind (Lookup LookupHost (name +:+ "." +:+ tld)) (fun r =>
    match snd r with
    | Some err => Print (Error err +:+ nl)
    | None => mret tt
    end ;;
    if fst r
    then Print (name +:+ "." +:+ tld +:+ " is available" +:+ nl)
    else Print (name +:+ "." +:+ tld +:+ " is " +:+ RedString "NOT"
                  +:+ " available" +:+ nl)).

Definition run (opts : Options) : io unit :=
  for_each (NamesList opts) (fun name =>
    if decide (name = "")
    then (* skip empty lines *) mret tt
    else for_each (TLDsList opts) (fun tld => check name tld)).

(** [main]: the exit status of the program. *)
Definition main (flags : Options) : io nat :=
  r ← readOptions flags;
  match r with
  | inl code => mret code
  | inr opts => run opts ;; mret 0
  end.

(** What [run] prints for one pair. *)
Definition report (name tld : string) : list string :=
  match isDomainNameAvailable LookupHost (name +:+ "." +:+ tld) with
  | (dn, err) =>
      match err with Some e => [Error e +:+ nl] | None => [] end
      ++ [if dn
          then name +:+ "." +:+ tld +:+ " is available" +:+ nl
          else name +:+ "." +:+ tld +:+ " is " +:+ RedString "NOT" +:+ " available" +:+ nl]
  end.

End Program.

End MainGo.

(** The second revision of the program, [part_002]. Its [run] is the
    [run] above, line for line; its [main] calls it and spools the
    results to the output file. Its [TLD] and [Result] have the fields
    of the ones above, under other names in JSON. *)
Module Part002.

Section Program.

Variable LookupHost : string -> LookupResult.
Variable GreenString RedString : string -> string.
Variable json_string : string -> string.

(** The indented form of [json.MarshalIndent(v, "", "  ")], with the
    field names this revision tags: [top_level_domain] and
    [is_available] for a [TLD], [domain_name] and [tlds] for a
    [Result]. *)
Definition json_TLD_indent (d : nat) (t : TLD) : string :=
  "{" +:+ nl
    +:+ indent (S d) +:+ json_key "top_level_domain" +:+ ": "
    +:+ json_string (TLDName t) +:+ "," +:+ nl
    +:+ indent (S d) +:+ json_key "is_available" +:+ ": " +:+ fmt_bool (IsAvailable t) +:+ nl
    +:+ indent d +:+ "}".

Definition json_TLDs_indent (d : nat) (l : list TLD) : string :=
  match l with
  | [] => "null"
  | _ => "[" +:+ nl
           +:+ join ("," +:+ nl) (map (fun t => indent (S d) +:+ json_TLD_indent (S d) t) l)
           +:+ nl +:+ indent d +:+ "]"
  end.

Definition json_Result_indent (d : nat) (r : Result) : string :=
  "{" +:+ nl
    +:+ indent (S d) +:+ json_key "domain_name" +:+ ": " +:+ json_string (Name r) +:+ "," +:+ nl
    +:+ indent (S d) +:+ json_key "tlds" +:+ ": " +:+ json_TLDs_indent (S d) (TLDList r) +:+ nl
    +:+ indent d +:+ "}".

Definition MarshalIndent (l : list Result) : string :=
  match l with
  | [] => "null"
  | _ => "[" +:+ nl
           +:+ join ("," +:+ nl) (map (fun r => indent 1 +:+ json_Result_indent 1 r) l)
           +:+ nl +:+ "]"
  end.

(** [SpoolOutputToFile]: the JSON document is the indented one, with no
    line feed after it. The deferred [Close] of the file is taken to
    succeed. *)
Definition SpoolOutputToFile (outputFileName : string) (results : list Result)
    (jsonOutput : bool) : io unit :=
  os_Create outputFileName ;;
  if jsonOutput
  then file_Write outputFileName (MarshalIndent results)
  else for_each results (fun result =>
         for_each (TLDList result) (fun tld =>
           file_Write outputFileName (spool_line result tld))).

(** [main], from the options [readOptions] returned: the exit status of
    the program. *)
Definition main (opts : Options) : io nat :=
  fun w =>
    match run LookupHost GreenString RedString opts w with
    | (w1, inl err) => (Print (Error err +:+ nl) ;; mret 1) w1
    | (w1, inr NamesResult) =>
        if decide (Output opts = "") then (w1, inr 0)
        else
          match SpoolOutputToFile (Output opts) NamesResult (Json opts) w1 with
          | (w2, inl err) => (Print (Error err +:+ nl) ;; mret 1) w2
          | (w2, inr _) => (w2, inr 0)
          end
    end.

(** The writes [SpoolOutputToFile] makes to the file, in order, and the
    text they make up. *)
Definition spool_chunks (results : list Result) (jsonOutput : bool) : list string :=
  if jsonOutput
  then [MarshalIndent results]
  else flat_map (fun r => map (spool_line r) (TLDList r)) results.

Definition spool_text (results : list Result) (jsonOutput : bool) : string :=
  if jsonOutput
  then MarshalIndent results
  else text_of (flat_map (fun r => map (spool_line r) (TLDList r)) results).

End Program.

End Part002.

(** ** Concrete inputs for the options and the first revision *)

(** [bufio.Scanner] on a content without a line feed that fits its
    buffer: the content is the one line, unless it is empty. *)
Definition scan_one_line (data : string) : list string * option error :=
  (if decide (data = "") then [] else [data], None).

(** [strings.TrimSpace] on names without leading or trailing white
    space. *)
Definition trim_nothing (s : string) : string := s.

(** [strings.ToLower] on text in ASCII. *)
Definition ascii_lower (c : ascii) : ascii :=
  let n := nat_of_ascii c in
  if ((65 <=? n) && (n <=? 90))%nat then ascii_of_nat (n + 32) else c.

Fixpoint ToLower_ascii (s : string) : string :=
  match s with
  | EmptyString => EmptyString
  | String c rest => String (ascii_lower c) (ToLower_ascii rest)
  end.

(** The flags after [-n names -d tlds -f file], with [-j] or without. *)
Definition flags_for (json : bool) (file names tlds : string) : Options :=
  mkOptions file names tlds "" false json false [] [].

(** A disk that holds the one file [path]. *)
Definition disk_with (path data : string) : FS :=
  mkFS {[ path := data ]} ∅ 4096.

(** * Properties *)

(** ** The resolver adapter *)

Section ResolverFacts.

Variable LookupHost : string -> LookupResult.

Lemma isDomainNameAvailable_cases (domain : string) :
  isDomainNameAvailable LookupHost domain =
    match snd (LookupHost domain) with
    | None => (false, None)
    | Some (ErrDNS _) => (true, None)
    | Some (ErrOther msg) => (false, Some (ErrOther msg))
    end.
Proof.
  unfold isDomainNameAvailable.
  destruct (LookupHost domain) as [addrs [[d|msg]|]]; reflexivity.
Qed.

(** The events of the loop never include a send or a [Done]. *)
Lemma checkDomains_loop_sends (name : string) (tlds : list string) (acc : list TLD) :
  sends (fst (checkDomains_loop LookupHost name tlds acc)) = [] /\
  EvDone ∉ fst (checkDomains_loop LookupHost name tlds acc).
Proof.
  revert acc. induction tlds as [|tld rest IH]; intros acc; simpl.
  - split; [reflexivity | apply not_elem_of_nil].
  - destruct (isDomainNameAvailable LookupHost (name +:+ "." +:+ tld)) as [b [e|]].
    + specialize (IH acc).
      destruct (checkDomains_loop LookupHost name rest acc) as [evs final]; simpl in *.
      destruct IH as [IH1 IH2]. split; [exact IH1|].
      rewrite !elem_of_cons. intros [H|[H|H]]; [discriminate | discriminate | tauto].
    + specialize (IH (acc ++ [mkTLD tld b])).
      destruct (checkDomains_loop LookupHost name rest (acc ++ [mkTLD tld b]))
        as [evs final]; simpl in *.
      destruct IH as [IH1 IH2]. split; [exact IH1|].
      rewrite elem_of_cons. intros [H|H]; [discriminate | tauto].
Qed.

(** The queries of the loop: one per TLD, in order, failed or not. *)
Lemma checkDomains_loop_lookups (name : string) (tlds : list string) (acc : list TLD) :
  lookups (fst (checkDomains_loop LookupHost name tlds acc)) =
    map (fun tld => name +:+ "." +:+ tld) tlds.
Proof.
  revert acc. induction tlds as [|tld rest IH]; intros acc; simpl; [reflexivity|].
  destruct (isDomainNameAvailable LookupHost (name +:+ "." +:+ tld)) as [b [e|]].
  - specialize (IH acc).
    destruct (checkDomains_loop LookupHost name rest acc) as [evs final]; simpl in *.
    now rewrite IH.
  - specialize (IH (acc ++ [mkTLD tld b])).
    destruct (checkDomains_loop LookupHost name rest (acc ++ [mkTLD tld b]))
      as [evs final]; simpl in *.
    now rewrite IH.
Qed.

(** The list the loop ends with: the verdicts of the TLDs whose lookup
    returned no error, in order, after what was there. *)
Lemma checkDomains_loop_verdicts (name : string) (tlds : list string) (acc : list TLD) :
  snd (checkDomains_loop LookupHost name tlds acc) = acc ++ flat_map (verdict LookupHost name) tlds.
Proof.
  revert acc. induction tlds as [|tld rest IH]; intros acc; simpl.
  - now rewrite app_nil_r.
  - unfold verdict at 1.
    destruct (isDomainNameAvailable LookupHost (name +:+ "." +:+ tld)) as [b [e|]].
    + specialize (IH acc).
      destruct (checkDomains_loop LookupHost name rest acc) as [evs final]; simpl in *.
      exact IH.
    + specialize (IH (acc ++ [mkTLD tld b])).
      destruct (checkDomains_loop LookupHost name rest (acc ++ [mkTLD tld b]))
        as [evs final]; simpl in *.
      rewrite IH. now rewrite <- app_assoc.
Qed.

(** A goroutine performs the events of its loop, then sends its result,
    then decrements the counter. *)
Lemma checkDomains_shape (name : string) (tlds : list string) :
  checkDomains LookupHost name tlds =
    fst (checkDomains_loop LookupHost name tlds [])
      ++ [EvSend (checkDomains_result LookupHost name tlds); EvDone].
Proof.
  unfold checkDomains, checkDomains_result.
  destruct (checkDomains_loop LookupHost name tlds []) as [evs final]; reflexivity.
Qed.

Lemma sends_app (l1 l2 : list event) : sends (l1 ++ l2) = sends l1 ++ sends l2.
Proof. unfold sends. apply flat_map_app. Qed.

Lemma lookups_app (l1 l2 : list event) : lookups (l1 ++ l2) = lookups l1 ++ lookups l2.
Proof. unfold lookups. apply flat_map_app. Qed.

Lemma prints_app (l1 l2 : list event) : prints (l1 ++ l2) = prints l1 ++ prints l2.
Proof. unfold prints. apply flat_map_app. Qed.

Lemma checkDomains_sends (name : string) (tlds : list string) :
  sends (checkDomains LookupHost name tlds) = [checkDomains_result LookupHost name tlds].
Proof.
  rewrite checkDomains_shape, sends_app.
  now rewrite (proj1 (checkDomains_loop_sends name tlds [])).
Qed.

Lemma checkDomains_lookups (name : string) (tlds : list string) :
  lookups (checkDomains LookupHost name tlds) = map (fun tld => name +:+ "." +:+ tld) tlds.
Proof.
  rewrite checkDomains_shape, lookups_app, checkDomains_loop_lookups.
  simpl. now rewrite app_nil_r.
Qed.

Lemma checkDomains_result_verdicts (name : string) (tlds : list string) :
  TLDList (checkDomains_result LookupHost name tlds) = flat_map (verdict LookupHost name) tlds.
Proof. unfold checkDomains_result; simpl. now rewrite checkDomains_loop_verdicts. Qed.

(** C9. [isDomainNameAvailable] never reports a domain available
    together with an error: when it answers true the error is nil, and
    when the error is not nil it answers false. *)
Theorem isDomainNameAvailable_available_xor_error (domain : string) :
  (fst (isDomainNameAvailable LookupHost domain) = true ->
   snd (isDomainNameAvailable LookupHost domain) = None) /\
  (snd (isDomainNameAvailable LookupHost domain) <> None ->
   fst (isDomainNameAvailable LookupHost domain) = false).
Proof.
  rewrite isDomainNameAvailable_cases.
  destruct (snd (LookupHost domain)) as [[d|msg]|]; simpl; split; congruence.
Qed.

(** C1, as the code has it. The probe of one pair classifies the
    resolution by the type of the error alone: a success gives the
    verdict not available, a DNS error of any kind (no such host, but a
    timeout or a server failure as well) gives the verdict available,
    and only an error that is not a DNS error gives no verdict. In each
    case the goroutine sends the one result that carries this. *)
Theorem probe_classifies_by_error_type (name tld : string) :
  TLDList (checkDomains_result LookupHost name [tld]) =
    match snd (LookupHost (name +:+ "." +:+ tld)) with
    | None => [mkTLD tld false]
    | Some (ErrDNS _) => [mkTLD tld true]
    | Some (ErrOther _) => []
    end /\
  sends (checkDomains LookupHost name [tld]) = [checkDomains_result LookupHost name [tld]].
Proof.
  split; [|apply checkDomains_sends].
  rewrite checkDomains_result_verdicts. simpl. rewrite app_nil_r.
  unfold verdict. rewrite isDomainNameAvailable_cases.
  destruct (snd (LookupHost (name +:+ "." +:+ tld))) as [[d|msg]|]; reflexivity.
Qed.

End ResolverFacts.

(** C1, as stated, fails: a lookup that times out is a transient error
    for the specification, which asks for no verdict, and the probe
    reports the domain available. *)
Lemma timeout_is_reported_available :
  classify (timeout_resolver "example.com") = TransientError /\
  verdict_spec "com" (classify (timeout_resolver "example.com")) = [] /\
  TLDList (checkDomains_result timeout_resolver "example" ["com"]) = [mkTLD "com" true].
Proof. repeat split. Qed.

(** ** The sequential scheduler *)

Section SequentialFacts.

Variable LookupHost : string -> LookupResult.
Variable GreenString RedString : string -> string.

Lemma verdict_ok (name tld : string) :
  probe_ok LookupHost name tld ->
  verdict LookupHost name tld =
    [mkTLD tld (fst (isDomainNameAvailable LookupHost (name +:+ "." +:+ tld)))].
Proof.
  unfold probe_ok, verdict.
  destruct (isDomainNameAvailable LookupHost (name +:+ "." +:+ tld)) as [b [e|]];
    simpl; congruence.
Qed.

Lemma verdict_fails (e : error) (name tld : string) :
  probe_fails LookupHost e name tld -> verdict LookupHost name tld = [].
Proof.
  unfold probe_fails, verdict.
  destruct (isDomainNameAvailable LookupHost (name +:+ "." +:+ tld)) as [b [e'|]];
    simpl; congruence.
Qed.

Lemma when_Print (b : bool) (text : string) (w : World) :
  exists evs, when b (Print text) w = (mkWorld (console w ++ evs) (disk w), inr tt) /\
              lookups evs = [].
Proof.
  destruct b; simpl.
  - exists [EvPrint text]. split; reflexivity.
  - exists []. rewrite app_nil_r. destruct w; split; reflexivity.
Qed.

Lemma when_VerboseOutput (b s : bool) (w : World) :
  exists evs,
    when b (VerboseOutput GreenString RedString s) w
      = (mkWorld (console w ++ evs) (disk w), inr tt) /\
    lookups evs = [].
Proof.
  destruct b; simpl.
  - destruct s; eexists [_]; split; reflexivity.
  - exists []. rewrite app_nil_r. destruct w; split; reflexivity.
Qed.

(** The inner loop: it returns the verdicts of all the TLDs when no
    probe fails, and the error of a failed probe otherwise; it leaves
    the disk alone and queries a prefix of the TLDs. *)
Lemma run_tlds_spec (opts : Options) (name : string) (todo : list string) :
  forall (tlds : list TLD) (w : World),
    match run_tlds LookupHost GreenString RedString opts name todo tlds w with
    | (w', inr r) =>
        Forall (probe_ok LookupHost name) todo /\
        r = tlds ++ flat_map (verdict LookupHost name) todo /\
        lookups (console w') =
          lookups (console w) ++ map (fun tld => name +:+ "." +:+ tld) todo
    | (w', inl e) =>
        Exists (probe_fails LookupHost e name) todo /\
        exists done_, done_ `prefix_of` todo /\
          lookups (console w') =
            lookups (console w) ++ map (fun tld => name +:+ "." +:+ tld) done_
    end.
Proof.
  induction todo as [|tld rest IH]; intros tlds w.
  - simpl. repeat split; [constructor | now rewrite app_nil_r | now rewrite app_nil_r].
  - cbn [run_tlds]. unfold mbind, io_mbind, io_bind at 1. unfold Lookup at 1.
    destruct (isDomainNameAvailable LookupHost (name +:+ "." +:+ tld)) as [b [e|]] eqn:E.
    + simpl. split.
      * left. unfold probe_fails. now rewrite E.
      * exists [tld]. split; [now exists rest|].
        rewrite !lookups_app. simpl. now rewrite app_nil_r.
    + unfold io_bind.
      destruct (when_VerboseOutput (Verbose opts) b
                  (mkWorld (console w ++ [EvLookup (name +:+ "." +:+ tld)]) (disk w)))
        as (evs & -> & Hevs).
      match goal with
      | |- context [run_tlds _ _ _ ?o ?n ?r ?t ?w1] =>
          specialize (IH t w1);
          destruct (run_tlds LookupHost GreenString RedString o n r t w1)
            as [w' [e|r']]
      end.
      * destruct IH as [Hex (done_ & Hpre & Hlk)]. split; [now right|].
        exists (tld :: done_). split; [now apply prefix_cons|].
        rewrite Hlk. simpl. rewrite !lookups_app, Hevs. simpl.
        now rewrite app_nil_r, <- app_assoc.
      * destruct IH as (Hall & -> & Hlk). repeat split.
        -- constructor; [|exact Hall]. unfold probe_ok. now rewrite E.
        -- simpl. rewrite (verdict_ok name tld) by (unfold probe_ok; now rewrite E).
           rewrite E. simpl. now rewrite <- app_assoc.
        -- rewrite Hlk. simpl. rewrite !lookups_app, Hevs. simpl.
           now rewrite app_nil_r, <- app_assoc.
Qed.

(** The outer loop: it returns one result per non-blank name, in order,
    when no probe of a non-blank name fails, and the error of a failed
    probe otherwise; no empty name is probed. *)
Lemma run_names_spec (opts : Options) (todo : list string) :
  forall (Results : list Result) (w : World),
    match run_names LookupHost GreenString RedString opts todo Results w with
    | (w', inr rs) =>
        Forall (fun name => name <> "" -> Forall (probe_ok LookupHost name) (TLDsList opts)) todo /\
        rs = Results ++
               map (fun name =>
                      mkResult name (flat_map (verdict LookupHost name) (TLDsList opts)))
                 (filter (fun name => name <> "") todo) /\
        lookups (console w') =
          lookups (console w) ++
            flat_map (fun name => map (fun tld => name +:+ "." +:+ tld) (TLDsList opts))
              (filter (fun name => name <> "") todo)
    | (w', inl e) =>
        Exists (fun name =>
                  name <> "" /\ Exists (probe_fails LookupHost e name) (TLDsList opts))
          todo
    end.
Proof.
  induction todo as [|name rest IH]; intros Results w.
  - simpl. repeat split; [constructor | now rewrite app_nil_r | now rewrite app_nil_r].
  - cbn [run_names]. destruct (decide (name = "")) as [Hblank|Hname].
    + specialize (IH Results w).
      destruct (run_names LookupHost GreenString RedString opts rest Results w)
        as [w' [e|rs]].
      * now right.
      * destruct IH as (Hall & -> & Hlk). rewrite filter_cons_False by tauto.
        repeat split; [constructor; [tauto | exact Hall] | exact Hlk].
    + unfold mbind, io_mbind, io_bind at 1.
      destruct (when_Print (Verbose opts) (pad_right 12 name +:+ " ") w)
        as (evs & -> & Hevs).
      unfold io_bind at 1.
      match goal with
      | |- context [run_tlds _ _ _ ?o ?n ?r ?t ?w1] =>
          pose proof (run_tlds_spec o n r t w1) as Ht;
          destruct (run_tlds LookupHost GreenString RedString o n r t w1) as [w1' [e|tlds]]
      end.
      * left. split; [exact Hname | apply Ht].
      * destruct Ht as (Hok & -> & Hlk1). unfold io_bind at 1.
        destruct (when_Print (Verbose opts) nl w1') as (evs' & -> & Hevs').
        match goal with
        | |- context [run_names _ _ _ ?o ?r ?rs ?w2] =>
            specialize (IH rs w2);
            destruct (run_names LookupHost GreenString RedString o r rs w2) as [w' [e|rs']]
        end.
        -- now right.
        -- destruct IH as (Hall & -> & Hlk). rewrite filter_cons_True by exact Hname.
           repeat split.
           ++ constructor; [intros _; exact Hok | exact Hall].
           ++ simpl. now rewrite <- app_assoc.
           ++ rewrite Hlk. simpl. rewrite lookups_app, Hevs', Hlk1. simpl.
              rewrite lookups_app, Hevs. now rewrite !app_nil_r, <- !app_assoc.
Qed.

Lemma PrintVerboseHeader_spec (opts : Options) (w : World) :
  exists evs,
    when (Verbose opts) (PrintVerboseHeader opts) w
      = (mkWorld (console w ++ evs) (disk w), inr tt) /\
    lookups evs = [].
Proof.
  destruct (Verbose opts); simpl.
  2:{ exists []. rewrite app_nil_r. destruct w; split; reflexivity. }
  unfold PrintVerboseHeader, mbind, io_mbind, io_bind. simpl.
  assert (Hloop : forall (l : list string) (w0 : World), exists evs,
             for_each l (fun t => Print (" " +:+ pad_right 4 t)) w0
               = (mkWorld (console w0 ++ evs) (disk w0), inr tt) /\ lookups evs = []).
  { induction l as [|t l IHl]; intros w0; simpl.
    - exists []. rewrite app_nil_r. destruct w0; split; reflexivity.
    - unfold mbind, io_mbind, io_bind. simpl.
      destruct (IHl (mkWorld (console w0 ++ [EvPrint (" " +:+ pad_right 4 t)]) (disk w0)))
        as (evs & -> & Hevs).
      exists (EvPrint (" " +:+ pad_right 4 t) :: evs). simpl.
      split; [now rewrite <- app_assoc | exact Hevs]. }
  match goal with
  | |- context [for_each ?l ?f ?w0] => destruct (Hloop l w0) as (evs & -> & Hevs)
  end.
  unfold Print. cbn [console disk]. eexists (_ :: _ :: evs ++ [_]). split.
  - rewrite <- !app_assoc. reflexivity.
  - simpl. rewrite lookups_app, Hevs. reflexivity.
Qed.

(** [run] on its input: the results of the non-blank names when no
    probe of theirs fails, an error otherwise. *)
Lemma run_spec (opts : Options) (w : World) :
  match run LookupHost GreenString RedString opts w with
  | (w', inr rs) =>
      Forall (fun name => name <> "" -> Forall (probe_ok LookupHost name) (TLDsList opts))
        (NamesList opts) /\
      rs = map (fun name =>
                  mkResult name (flat_map (verdict LookupHost name) (TLDsList opts)))
             (filter (fun name => name <> "") (NamesList opts)) /\
      lookups (console w') =
        lookups (console w) ++
          flat_map (fun name => map (fun tld => name +:+ "." +:+ tld) (TLDsList opts))
            (filter (fun name => name <> "") (NamesList opts))
  | (w', inl e) =>
      Exists (fun name => name <> "" /\ Exists (probe_fails LookupHost e name) (TLDsList opts))
        (NamesList opts)
  end.
Proof.
  unfold run, mbind, io_mbind, io_bind.
  destruct (PrintVerboseHeader_spec opts w) as (evs & -> & Hevs).
  match goal with
  | |- context [run_names _ _ _ ?o ?r ?rs ?w1] =>
      pose proof (run_names_spec o r rs w1) as Hn;
      destruct (run_names LookupHost GreenString RedString o r rs w1) as [w' [e|rs']]
  end.
  - exact Hn.
  - destruct Hn as (Hall & -> & Hlk). repeat split; [exact Hall|].
    rewrite Hlk. simpl. rewrite lookups_app, Hevs. now rewrite app_nil_r.
Qed.

End SequentialFacts.

(** ** The concurrent fan-out and fan-in *)

Lemma dones_app (l1 l2 : list event) : dones (l1 ++ l2) = dones l1 ++ dones l2.
Proof. unfold dones. apply flat_map_app. Qed.

Lemma probe_events_app (t1 t2 : list (actor * event)) :
  probe_events (t1 ++ t2) = probe_events t1 ++ probe_events t2.
Proof. unfold probe_events. apply flat_map_app. Qed.

Lemma main_events_app (t1 t2 : list (actor * event)) :
  main_events (t1 ++ t2) = main_events t1 ++ main_events t2.
Proof. unfold main_events. apply flat_map_app. Qed.

Lemma probe_events_of_main (f : TLD -> string) (l : list TLD) :
  probe_events (map (fun tld => (Main, EvPrint (f tld))) l) = [].
Proof. induction l as [|t l IH]; simpl; [reflexivity | exact IH]. Qed.

Lemma main_events_of_main (f : TLD -> string) (l : list TLD) :
  prints (main_events (map (fun tld => (Main, EvPrint (f tld))) l)) = map f l.
Proof. induction l as [|t l IH]; simpl; [reflexivity | now rewrite <- IH]. Qed.

(** Taking the head event off goroutine [i] takes that one event off
    the events still to come. *)
Lemma concat_insert_head (gs : list (list event)) (i : nat) (ev : event)
    (rest : list event) :
  gs !! i = Some (ev :: rest) ->
  concat gs ≡ₚ ev :: concat (<[i := rest]> gs).
Proof.
  revert i. induction gs as [|g gs IH]; intros [|i] Hi; simpl in *; try discriminate.
  - injection Hi as ->. reflexivity.
  - rewrite (IH i Hi). symmetry. apply Permutation_middle.
Qed.

Section ConcurrentFacts.

Variable LookupHost : string -> LookupResult.
Variable json_string : string -> string.
Variable opts : Options.
Variable fs : FS.

Lemma checkDomains_last (name : string) (tlds : list string) :
  last (checkDomains LookupHost name tlds) = Some EvDone.
Proof.
  rewrite checkDomains_shape.
  change [EvSend (checkDomains_result LookupHost name tlds); EvDone]
    with ([EvSend (checkDomains_result LookupHost name tlds)] ++ [EvDone]).
  rewrite app_assoc. apply last_snoc.
Qed.

Lemma checkDomains_dones (name : string) (tlds : list string) :
  dones (checkDomains LookupHost name tlds) = [tt].
Proof.
  rewrite checkDomains_shape, dones_app. simpl.
  destruct (checkDomains_loop_sends LookupHost name tlds []) as [_ Hnot].
  induction (fst (checkDomains_loop LookupHost name tlds [])) as [|ev evs IH];
    [reflexivity|].
  apply not_elem_of_cons in Hnot as [Hev Hevs].
  simpl. destruct ev; try (now apply IH). congruence.
Qed.

Lemma main_spawn_dones :
  length (dones (concat (main_spawn LookupHost opts))) = length (main_spawn LookupHost opts).
Proof.
  unfold main_spawn. induction (main_pairs opts) as [|p ps IH]; simpl; [reflexivity|].
  now rewrite dones_app, length_app, checkDomains_dones, IH.
Qed.

Lemma Inv_init : Inv LookupHost json_string opts fs (init LookupHost opts fs).
Proof.
  constructor; simpl; try discriminate; try congruence.
  - reflexivity.
  - symmetry. apply main_spawn_dones.
  - unfold main_spawn. apply Forall_forall. intros g Hg.
    apply list_elem_of_In, in_map_iff in Hg as (p & <- & _).
    right. apply checkDomains_last.
  - reflexivity.
  - intros _. repeat split. now left.
  - intros _ _. split; reflexivity.
Qed.

Lemma received_snoc (tr : list (actor * event)) (i : nat) (ev : event) :
  sends (probe_events (tr ++ [(Probe i, ev)])) = sends (probe_events tr) ++ sends [ev].
Proof. now rewrite probe_events_app, sends_app. Qed.

Lemma presented_snoc_probe (tr : list (actor * event)) (i : nat) (ev : event) :
  prints (main_events (tr ++ [(Probe i, ev)])) = prints (main_events tr).
Proof. rewrite main_events_app, prints_app. simpl. now rewrite app_nil_r. Qed.

Section Advance.

Variable s : State.
Variable i : nat.
Variable ev : event.
Variable rest : list event.
Hypothesis HI : Inv LookupHost json_string opts fs s.
Hypothesis Hi : goroutines s !! i = Some (ev :: rest).

Lemma advance_events :
  probe_events (trace s ++ [(Probe i, ev)]) ++ concat (<[i := rest]> (goroutines s))
    ≡ₚ concat (main_spawn LookupHost opts).
Proof.
  rewrite probe_events_app. simpl. rewrite <- app_assoc. simpl.
  rewrite <- (concat_insert_head _ _ _ _ Hi).
  apply (inv_events _ _ _ _ s HI).
Qed.

Lemma advance_dones :
  length (dones (concat (goroutines s))) =
    length (dones [ev]) + length (dones (concat (<[i := rest]> (goroutines s)))).
Proof.
  rewrite <- length_app, <- dones_app. apply Permutation_length.
  unfold dones. apply Permutation_flat_map. simpl.
  apply (concat_insert_head _ _ _ _ Hi).
Qed.

Lemma advance_shape :
  Forall (fun g => g = [] \/ last g = Some EvDone) (<[i := rest]> (goroutines s)).
Proof.
  apply Forall_insert; [apply (inv_shape _ _ _ _ s HI)|].
  pose proof (inv_shape _ _ _ _ s HI) as Hall.
  rewrite Forall_lookup in Hall. destruct (Hall i _ Hi) as [H|H]; [discriminate|].
  destruct rest as [|ev' rest']; [now left | right].
  now rewrite last_cons_cons in H.
Qed.

(** A goroutine that still has an event to perform has its [Done] to
    perform, so the counter is positive and the channel is open. *)
Lemma pending_wg_positive : 0 < wg s.
Proof.
  rewrite (inv_wg _ _ _ _ s HI).
  pose proof (inv_shape _ _ _ _ s HI) as Hall.
  rewrite Forall_lookup in Hall. destruct (Hall i _ Hi) as [H|H]; [discriminate|].
  apply last_Some in H as [l' Hl'].
  rewrite advance_dones.
  destruct l' as [|x l'].
  - simpl in Hl'. injection Hl' as -> ->. simpl. lia.
  - simpl in Hl'. injection Hl' as -> ->.
    assert (Hin : 0 < length (dones (concat (<[i:=l' ++ [EvDone]]> (goroutines s))))).
    { assert (Hlook : <[i:=l' ++ [EvDone]]> (goroutines s) !! i = Some (l' ++ [EvDone])).
      { apply list_lookup_insert_eq. now apply lookup_lt_Some in Hi. }
      clear Hi Hall. revert Hlook. generalize (<[i:=l' ++ [EvDone]]> (goroutines s)).
      intros gs. revert i. induction gs as [|g gs IH]; intros [|j] Hj; simpl in *;
        try discriminate.
      - injection Hj as ->. rewrite !dones_app, !length_app. simpl. lia.
      - rewrite dones_app, length_app. specialize (IH j Hj). lia. }
    lia.
Qed.

Lemma pending_not_closed : closed s = false.
Proof.
  destruct (closed s) eqn:Hc; [|reflexivity].
  pose proof (inv_closed _ _ _ _ s HI Hc). pose proof pending_wg_positive. lia.
Qed.

End Advance.

(** A successful [os.WriteFile] leaves the data as the content of the
    file. *)
Lemma os_WriteFile_ok (path data : string) (w w' : World) :
  os_WriteFile path data w = (w', inr tt) ->
  contents (disk w') !! path = Some data.
Proof.
  unfold os_WriteFile, mbind, io_mbind, io_bind, os_Create, file_Write.
  destruct (decide (path ∈ locked (disk w))); [discriminate|]. simpl.
  rewrite lookup_insert_eq. change ("" +:+ data) with data.
  destruct (decide (String.length data <= quota (disk w))); [|discriminate].
  intros [= <-]. simpl. apply lookup_insert_eq.
Qed.

(** The first bytes of a string are a prefix of it. *)
Lemma substring_rest (n : nat) (s : string) :
  exists rest, s = substring 0 n s +:+ rest.
Proof.
  revert n. induction s as [|c s IH]; intros [|n]; simpl.
  - now exists "".
  - now exists "".
  - now exists (String c s).
  - destruct (IH n) as [rest Hrest]. exists rest.
    change (String c (substring 0 n s) +:+ rest)
      with (String c (substring 0 n s +:+ rest)).
    now rewrite <- Hrest.
Qed.

(** [os.WriteFile] touches the one file only. When it fails the file
    is as it was, or it was created and holds a prefix of the data. *)
Lemma os_WriteFile_frame (path data : string) (w w' : World) (r : error + unit) :
  os_WriteFile path data w = (w', r) ->
  console w' = console w /\
  locked (disk w') = locked (disk w) /\
  quota (disk w') = quota (disk w) /\
  (forall other, other <> path ->
     contents (disk w') !! other = contents (disk w) !! other) /\
  match r with
  | inr _ => contents (disk w') !! path = Some data
  | inl _ =>
      (path ∈ locked (disk w) /\ w' = w) \/
      (exists written rest,
         contents (disk w') !! path = Some written /\ data = written +:+ rest)
  end.
Proof.
  unfold os_WriteFile, mbind, io_mbind, io_bind, os_Create, file_Write.
  destruct (decide (path ∈ locked (disk w))) as [Hl|Hl].
  - intros [= <- <-]. repeat split; auto.
  - cbn [disk contents locked quota console]. rewrite lookup_insert_eq.
    change ("" +:+ data) with data.
    destruct (decide (String.length data <= quota (disk w))) as [Hq|Hq];
      intros [= <- <-]; cbn [disk contents locked quota console].
    + repeat split; auto.
      * intros other Hother. now rewrite !lookup_insert_ne by congruence.
      * apply lookup_insert_eq.
    + repeat split; auto.
      * intros other Hother. now rewrite !lookup_insert_ne by congruence.
      * right. destruct (substring_rest (quota (disk w) - 0) data) as [rest Hrest].
        exists (substring 0 (quota (disk w) - 0) data), rest.
        split; [apply lookup_insert_eq | exact Hrest].
Qed.

(** The invariant is kept when goroutine [i] performs an event that is
    no send: a query, a diagnostic, or its [Done], which takes one off
    the counter. *)
Lemma Inv_silent (s : State) (i n : nat) (ev : event) (rest : list event) :
  Inv LookupHost json_string opts fs s ->
  exited s = None ->
  goroutines s !! i = Some (ev :: rest) ->
  sends [ev] = [] ->
  wg s = length (dones [ev]) + n ->
  Inv LookupHost json_string opts fs
    (mkState (<[i := rest]> (goroutines s)) n (closed s) (jsonResults s)
       (trace s ++ [(Probe i, ev)]) (files s) (exited s)).
Proof.
  intros HI Hex Hi Hquiet Hwg.
  pose proof (pending_not_closed s i ev rest HI Hi) as Hnc.
  constructor; simpl.
  - apply (advance_events s i ev rest HI Hi).
  - pose proof (inv_wg _ _ _ _ s HI) as Hw.
    rewrite (advance_dones s i ev rest Hi) in Hw. lia.
  - apply (advance_shape s i ev rest HI Hi).
  - congruence.
  - congruence.
  - intros HJ. unfold received. simpl. rewrite received_snoc, Hquiet, app_nil_r.
    apply (inv_json _ _ _ _ s HI HJ).
  - intros HJ. unfold received, presented. simpl.
    rewrite received_snoc, presented_snoc_probe, Hquiet, app_nil_r.
    apply (inv_text _ _ _ _ s HI HJ).
  - intros HJ _. unfold presented. simpl. rewrite presented_snoc_probe.
    apply (inv_json_running _ _ _ _ s HI HJ Hex).
  - intros HJ Hne. congruence.
Qed.

(** The invariant is kept by every step. *)
Lemma Inv_step (c : choice) (s s' : State) :
  Inv LookupHost json_string opts fs s ->
  step json_string opts c s = Some s' ->
  Inv LookupHost json_string opts fs s'.
Proof.
  intros HI Hstep. unfold step in Hstep.
  destruct (exited s) eqn:Hex; [discriminate|].
  destruct c as [i| |].
  - (* a goroutine *)
    destruct (goroutines s !! i) as [[|ev rest]|] eqn:Hi; try discriminate.
    pose proof (advance_events s i ev rest HI Hi) as Hev.
    pose proof (advance_dones s i ev rest Hi) as Hd.
    pose proof (advance_shape s i ev rest HI Hi) as Hsh.
    pose proof (pending_wg_positive s i ev rest HI Hi) as Hpos.
    pose proof (pending_not_closed s i ev rest HI Hi) as Hnc.
    destruct ev as [d|t|r|].
    + (* a query *)
      injection Hstep as <-.
      now apply (Inv_silent s i (wg s) (EvLookup d) rest).
    + (* a diagnostic *)
      injection Hstep as <-.
      now apply (Inv_silent s i (wg s) (EvPrint t) rest).
    + (* the send, received by the range loop *)
      rewrite Hnc in Hstep. injection Hstep as <-.
      unfold main_body. destruct (Json opts) eqn:HJ; constructor; simpl;
        try congruence; try exact Hev; try exact Hsh;
        try (rewrite (inv_wg _ _ _ _ s HI), Hd; reflexivity).
      * intros _. unfold received. simpl. rewrite received_snoc. simpl.
        now rewrite (inv_json _ _ _ _ s HI HJ).
      * intros _ _. unfold presented. simpl. rewrite presented_snoc_probe.
        apply (inv_json_running _ _ _ _ s HI HJ Hex).
      * rewrite probe_events_app, probe_events_of_main, app_nil_r. exact Hev.
      * intros _. unfold received, presented. simpl.
        rewrite !probe_events_app, !main_events_app, probe_events_of_main.
        rewrite !sends_app, !prints_app, main_events_of_main. simpl.
        rewrite !app_nil_r, flat_map_app. simpl. rewrite app_nil_r.
        destruct (inv_text _ _ _ _ s HI HJ) as (Hp & Hf & He).
        unfold presented, received in Hp. rewrite Hp. rewrite Hex. tauto.
    + (* the Done *)
      unfold wg_Done in Hstep. simpl in Hstep.
      destruct (wg s) as [|n] eqn:Hwg; [lia|]. injection Hstep as <-.
      apply (Inv_silent s i n EvDone rest); auto.
  - (* the closer *)
    unfold closer in Hstep. destruct (closed s) eqn:Hc; [discriminate|].
    destruct (wg s) as [|n] eqn:Hwg; [|discriminate]. injection Hstep as <-.
    constructor; simpl; try congruence.
    + apply (inv_events _ _ _ _ s HI).
    + rewrite <- Hwg. apply (inv_wg _ _ _ _ s HI).
    + apply (inv_shape _ _ _ _ s HI).
    + exact (inv_json _ _ _ _ s HI).
    + intros HJ. destruct (inv_text _ _ _ _ s HI HJ) as (Hp & Hf & He).
      repeat split; [exact Hp | exact Hf | now left].
    + intros HJ _. exact (inv_json_running _ _ _ _ s HI HJ Hex).
  - (* the end of main *)
    destruct (closed s) eqn:Hc; [|discriminate]. injection Hstep as <-.
    unfold main_finish. destruct (Json opts) eqn:HJ.
    + destruct (inv_json_running _ _ _ _ s HI HJ Hex) as [Hp Hf].
      assert (Hfin : forall s1,
                json_final json_string opts fs s1 ->
                goroutines s1 = goroutines s -> wg s1 = wg s -> closed s1 = closed s ->
                jsonResults s1 = jsonResults s ->
                probe_events (trace s1) = probe_events (trace s) ->
                exited s1 <> None -> Inv LookupHost json_string opts fs s1).
      { intros s1 Hj Hg Hw Hcl Hjs Htr Hne. unfold received.
        constructor; unfold received; rewrite ?Hg, ?Hw, ?Hcl, ?Hjs, ?Htr;
          try congruence.
        - apply (inv_events _ _ _ _ s HI).
        - apply (inv_wg _ _ _ _ s HI).
        - apply (inv_shape _ _ _ _ s HI).
        - intros _. apply (inv_closed _ _ _ _ s HI Hc).
        - intros _. apply (inv_json _ _ _ _ s HI HJ). }
      destruct (decide (Output opts = "")) as [Ho|Ho].
      * apply Hfin; simpl; try reflexivity; try congruence.
        -- unfold json_final. rewrite decide_True by exact Ho. unfold presented. simpl.
           rewrite main_events_app, prints_app. fold (presented s). rewrite Hp.
           repeat split. exact Hf.
        -- rewrite probe_events_app. simpl. apply app_nil_r.
      * rewrite Hf.
        destruct (os_WriteFile (Output opts) (MarshalIndent json_string (jsonResults s))
                    (start fs)) as [w [err|[]]] eqn:Hw.
        -- apply Hfin; simpl; try reflexivity; try congruence.
           ++ unfold json_final. rewrite decide_False by exact Ho. simpl. rewrite Hw.
              unfold presented. simpl. rewrite main_events_app, prints_app.
              fold (presented s). rewrite Hp. repeat split.
           ++ rewrite probe_events_app. simpl. apply app_nil_r.
        -- apply Hfin; simpl; try reflexivity; try congruence.
           unfold json_final. rewrite decide_False by exact Ho. simpl. rewrite Hw.
           repeat split. exact Hp.
    + constructor; simpl; try congruence.
      * apply (inv_events _ _ _ _ s HI).
      * apply (inv_wg _ _ _ _ s HI).
      * apply (inv_shape _ _ _ _ s HI).
      * intros _. apply (inv_closed _ _ _ _ s HI Hc).
      * intros _. destruct (inv_text _ _ _ _ s HI HJ) as (Hp & Hf & He).
        repeat split; [exact Hp | exact Hf | now right].
Qed.

Lemma Inv_exec (schedule : list choice) (s s' : State) :
  Inv LookupHost json_string opts fs s ->
  exec json_string opts schedule s = Some s' ->
  Inv LookupHost json_string opts fs s'.
Proof.
  revert s. induction schedule as [|c cs IH]; intros s HI He; simpl in He.
  - now injection He as <-.
  - destruct (step json_string opts c s) as [s1|] eqn:Hs; [|discriminate].
    eapply IH; [|exact He]. eapply Inv_step; eassumption.
Qed.

Lemma Inv_reachable (s : State) :
  Reachable LookupHost json_string opts fs s -> Inv LookupHost json_string opts fs s.
Proof. intros [cs Hcs]. eapply Inv_exec; [apply Inv_init | exact Hcs]. Qed.

(** Every step does one of the things left to do. *)
Lemma step_remaining (c : choice) (s s' : State) :
  step json_string opts c s = Some s' -> S (remaining s') = remaining s.
Proof.
  unfold step, remaining. destruct (exited s) eqn:Hex; [discriminate|].
  destruct c as [i| |].
  - destruct (goroutines s !! i) as [[|ev rest]|] eqn:Hi; try discriminate.
    pose proof (Permutation_length (concat_insert_head _ _ _ _ Hi)) as Hlen.
    simpl in Hlen. intros Hstep.
    assert (Hs' : goroutines s' = <[i:=rest]> (goroutines s) /\
                  closed s' = closed s /\ exited s' = None).
    { destruct ev; simpl in Hstep.
      - now injection Hstep as <-.
      - now injection Hstep as <-.
      - destruct (closed s) eqn:Hc; [discriminate|]. injection Hstep as <-.
        unfold main_body. destruct (Json opts); simpl; rewrite ?Hex, ?Hc; auto.
      - unfold wg_Done in Hstep. simpl in Hstep. destruct (wg s); [discriminate|].
        now injection Hstep as <-. }
    destruct Hs' as (-> & -> & ->). lia.
  - unfold closer. destruct (closed s); [discriminate|].
    destruct (wg s); [|discriminate]. intros [= <-]. simpl. rewrite Hex. lia.
  - destruct (closed s) eqn:Hc; [|discriminate]. intros [= <-].
    unfold main_finish. destruct (Json opts); simpl; [|rewrite Hc; lia].
    destruct (decide (Output opts = "")); simpl; [rewrite Hc; lia|].
    destruct (os_WriteFile _ _ _) as [w [err|u]]; simpl; rewrite Hc; lia.
Qed.

Lemma exec_remaining (schedule : list choice) (s s' : State) :
  exec json_string opts schedule s = Some s' ->
  length schedule + remaining s' = remaining s.
Proof.
  revert s. induction schedule as [|c cs IH]; intros s He; simpl in He.
  - now injection He as <-.
  - destruct (step json_string opts c s) as [s1|] eqn:Hs; [|discriminate].
    apply IH in He. apply step_remaining in Hs. simpl. lia.
Qed.

(** A list of goroutines has one with an event to perform, or all have
    ended. *)
Lemma pending_or_ended (gs : list (list event)) :
  (exists i ev rest, gs !! i = Some (ev :: rest)) \/ concat gs = [].
Proof.
  induction gs as [|g gs IH].
  - now right.
  - destruct g as [|ev rest].
    + destruct IH as [(i & ev & rest & Hi)|Hnil].
      * left. now exists (S i), ev, rest.
      * now right.
    + left. now exists 0, ev, rest.
Qed.

(** Progress: a run that has not ended can take a step. *)
Lemma Inv_progress (s : State) :
  Inv LookupHost json_string opts fs s ->
  exited s = None ->
  exists c s', step json_string opts c s = Some s'.
Proof.
  intros HI Hex. unfold step. rewrite Hex.
  destruct (pending_or_ended (goroutines s)) as [(i & ev & rest & Hi)|Hnil].
  - exists (RunProbe i). rewrite Hi.
    pose proof (pending_wg_positive s i ev rest HI Hi) as Hpos.
    rewrite (pending_not_closed s i ev rest HI Hi).
    destruct ev; try (eexists; reflexivity).
    unfold wg_Done. simpl. destruct (wg s); [lia|]. eexists; reflexivity.
  - destruct (closed s) eqn:Hc.
    + exists RunMain. eexists; reflexivity.
    + exists RunCloser. unfold closer. rewrite Hc.
      rewrite (inv_wg _ _ _ _ s HI), Hnil. simpl. eexists; reflexivity.
Qed.

(** Every run can be carried on to its end. *)
Lemma Inv_completes (s : State) :
  Inv LookupHost json_string opts fs s -> exists schedule s',
    exec json_string opts schedule s = Some s' /\ exited s' <> None.
Proof.
  remember (remaining s) as n eqn:Hn. revert s Hn.
  induction n as [n IH] using lt_wf_ind. intros s Hn HI.
  destruct (exited s) as [code|] eqn:Hex.
  - exists [], s. simpl. split; [reflexivity | congruence].
  - destruct (Inv_progress s HI Hex) as (c & s1 & Hs).
    pose proof (step_remaining c s s1 Hs) as Hr.
    destruct (IH (remaining s1) ltac:(lia) s1 eq_refl (Inv_step c s s1 HI Hs))
      as (cs & s' & He & Hne).
    exists (c :: cs), s'. simpl. rewrite Hs. now split.
Qed.

(** When the program has ended, every goroutine has. *)
Lemma Inv_exited_ended (s : State) :
  Inv LookupHost json_string opts fs s ->
  exited s <> None ->
  concat (goroutines s) = [] /\ wg s = 0 /\ closed s = true.
Proof.
  intros HI Hne.
  pose proof (inv_exited _ _ _ _ s HI Hne) as Hc.
  pose proof (inv_closed _ _ _ _ s HI Hc) as Hw.
  repeat split; [|exact Hw|exact Hc].
  destruct (pending_or_ended (goroutines s)) as [(i & ev & rest & Hi)|Hnil];
    [|exact Hnil].
  pose proof (pending_wg_positive s i ev rest HI Hi). lia.
Qed.

(** The results and the queries of all the goroutines, in spawn order. *)
Lemma main_spawn_sends :
  sends (concat (main_spawn LookupHost opts)) =
    map (fun p => checkDomains_result LookupHost (fst p) [snd p]) (main_pairs opts).
Proof.
  unfold main_spawn. induction (main_pairs opts) as [|p ps IH]; simpl; [reflexivity|].
  now rewrite sends_app, checkDomains_sends, IH.
Qed.

Lemma main_spawn_lookups :
  lookups (concat (main_spawn LookupHost opts)) =
    map (fun p => fst p +:+ "." +:+ snd p) (main_pairs opts).
Proof.
  unfold main_spawn. induction (main_pairs opts) as [|p ps IH]; simpl; [reflexivity|].
  now rewrite lookups_app, checkDomains_lookups, IH.
Qed.

(** The join: when the program has ended, [main] has received the
    results of all the goroutines, and all their queries were made. *)
Lemma Inv_exited_complete (s : State) :
  Inv LookupHost json_string opts fs s -> exited s <> None ->
  received s ≡ₚ map (fun p => checkDomains_result LookupHost (fst p) [snd p])
                  (main_pairs opts) /\
  probed s ≡ₚ map (fun p => fst p +:+ "." +:+ snd p) (main_pairs opts).
Proof.
  intros HI Hne. destruct (Inv_exited_ended s HI Hne) as (Hnil & _ & _).
  pose proof (inv_events _ _ _ _ s HI) as Hev. rewrite Hnil, app_nil_r in Hev.
  unfold received, probed. rewrite <- main_spawn_sends, <- main_spawn_lookups.
  split; unfold sends, lookups; now apply Permutation_flat_map.
Qed.

End ConcurrentFacts.

(** ** Counting *)

Lemma count_app `{EqDecision A} (x : A) (l1 l2 : list A) :
  count x (l1 ++ l2) = count x l1 + count x l2.
Proof. unfold count. now rewrite filter_app, length_app. Qed.

Lemma count_cons `{EqDecision A} (x y : A) (l : list A) :
  count x (y :: l) = (if decide (y = x) then 1 else 0) + count x l.
Proof.
  unfold count. destruct (decide (y = x)) as [H|H].
  - now rewrite filter_cons_True by exact H.
  - now rewrite filter_cons_False by exact H.
Qed.

Lemma count_Permutation `{EqDecision A} (x : A) (l1 l2 : list A) :
  l1 ≡ₚ l2 -> count x l1 = count x l2.
Proof. intros H. unfold count. now rewrite H. Qed.



Section Pairs.

Variable LookupHost : string -> LookupResult.
Variable opts : Options.

Lemma main_pairs_length :
  length (main_pairs opts) = length (NamesList opts) * length (TLDsList opts).
Proof.
  unfold main_pairs. induction (NamesList opts) as [|n ns IH]; simpl; [reflexivity|].
  now rewrite length_app, length_map, IH.
Qed.



Lemma count_names_of_pairs (n name : string) (tlds : list string) :
  count name (map fst (map (fun tld => (n, tld)) tlds)) =
    (if decide (n = name) then 1 else 0) * length tlds.
Proof.
  induction tlds as [|t ts IHt]; simpl.
  - unfold count. simpl. lia.
  - rewrite count_cons, IHt. destruct (decide (n = name)); lia.
Qed.

(** A name occurs among the names of the spawned probes once per TLD
    for each of its occurrences among the names. *)
Lemma count_main_pairs_name (name : string) :
  count name (map fst (main_pairs opts)) =
    count name (NamesList opts) * length (TLDsList opts).
Proof.
  unfold main_pairs. induction (NamesList opts) as [|n ns IH]; simpl; [reflexivity|].
  rewrite map_app, count_app, IH, (count_cons name n ns), count_names_of_pairs.
  lia.
Qed.


End Pairs.

(** ** The file renderer *)

Lemma append_nil_r (s : string) : s +:+ "" = s.
Proof.
  induction s as [|a s IH]; [reflexivity|].
  change (String a s +:+ "") with (String a (s +:+ "")). now rewrite IH.
Qed.

Lemma append_assoc (s1 s2 s3 : string) : (s1 +:+ s2) +:+ s3 = s1 +:+ s2 +:+ s3.
Proof.
  induction s1 as [|a s1 IH]; [reflexivity|].
  change ((String a s1 +:+ s2) +:+ s3) with (String a ((s1 +:+ s2) +:+ s3)).
  change (String a s1 +:+ s2 +:+ s3) with (String a (s1 +:+ s2 +:+ s3)).
  now rewrite IH.
Qed.

Lemma length_append (s1 s2 : string) :
  String.length (s1 +:+ s2) = String.length s1 + String.length s2.
Proof.
  induction s1 as [|a s1 IH]; [reflexivity|].
  change (String a s1 +:+ s2) with (String a (s1 +:+ s2)). simpl. now rewrite IH.
Qed.

Lemma with_content_twice (path d1 d2 : string) (w : World) :
  with_content path d2 (with_content path d1 w) = with_content path d2 w.
Proof. unfold with_content. simpl. now rewrite insert_insert_eq. Qed.

Lemma with_content_same (path data : string) (w : World) :
  contents (disk w) !! path = Some data -> with_content path data w = w.
Proof.
  intros H. unfold with_content. rewrite (insert_id _ _ _ H).
  destruct w as [c [m l q]]. reflexivity.
Qed.

(** Writing chunks to the open file [path] that holds [old]: all the
    writes succeed exactly when the whole text fits the quota, and then
    the file holds [old] followed by the text. *)
Lemma write_all_spec (path : string) (chunks : list string) :
  forall (w : World) (old : string),
    contents (disk w) !! path = Some old ->
    String.length old <= quota (disk w) ->
    (String.length (old +:+ text_of chunks) <= quota (disk w) ->
     for_each chunks (file_Write path) w
       = (with_content path (old +:+ text_of chunks) w, inr tt)) /\
    (forall w', for_each chunks (file_Write path) w = (w', inr tt) ->
                String.length (old +:+ text_of chunks) <= quota (disk w)).
Proof.
  induction chunks as [|c cs IH]; intros w old Hold Hlen; simpl.
  - rewrite append_nil_r. split.
    + intros _. now rewrite (with_content_same _ _ _ Hold).
    + intros w' _. exact Hlen.
  - unfold mbind, io_mbind, io_bind. unfold file_Write at 1 3. rewrite Hold.
    rewrite <- append_assoc.
    destruct (decide (String.length (old +:+ c) <= quota (disk w))) as [Hc|Hc].
    + fold (with_content path (old +:+ c) w).
      assert (Hnew : contents (disk (with_content path (old +:+ c) w)) !! path
                     = Some (old +:+ c)) by apply lookup_insert_eq.
      destruct (IH (with_content path (old +:+ c) w) (old +:+ c) Hnew Hc) as [IH1 IH2].
      split.
      * intros Hall. rewrite (IH1 Hall). now rewrite with_content_twice.
      * intros w' Hw'. exact (IH2 w' Hw').
    + split.
      * intros Hall. rewrite length_append in Hall. lia.
      * intros w' [=].
Qed.

Lemma for_each_app {A} (l1 l2 : list A) (body : A -> io unit) (w : World) :
  for_each (l1 ++ l2) body w = io_bind (for_each l1 body) (fun _ => for_each l2 body) w.
Proof.
  revert w. induction l1 as [|a l1 IH]; intros w; simpl.
  - reflexivity.
  - unfold mbind, io_mbind, io_bind. destruct (body a w) as [w1 [e|u]]; [reflexivity|].
    apply IH.
Qed.

Lemma for_each_map {A B} (f : A -> B) (l : list A) (body : B -> io unit) (w : World) :
  for_each (map f l) body w = for_each l (fun a => body (f a)) w.
Proof.
  revert w. induction l as [|a l IH]; intros w; simpl; [reflexivity|].
  unfold mbind, io_mbind, io_bind. destruct (body (f a) w) as [w1 [e|u]]; [reflexivity|].
  apply IH.
Qed.

(** The two nested loops write the lines of all the results in order. *)
Lemma spool_loops (path : string) (result : list Result) (w : World) :
  for_each result (fun r =>
    for_each (TLDList r) (fun t => file_Write path (spool_line r t))) w
  = for_each (flat_map (fun r => map (spool_line r) (TLDList r)) result)
      (file_Write path) w.
Proof.
  revert w. induction result as [|r rs IH]; intros w; simpl; [reflexivity|].
  rewrite for_each_app. unfold mbind, io_mbind, io_bind.
  rewrite for_each_map.
  destruct (for_each (TLDList r) _ w) as [w1 [e|u]]; [reflexivity|]. apply IH.
Qed.

(** [SpoolOutputToFile] succeeds exactly when the file can be opened and
    the text fits, and then the file holds the text and nothing else
    changed. *)
Lemma SpoolOutputToFile_spec (json_string : string -> string) (path : string)
    (result : list Result) (jsonOutput : bool) (w w' : World) :
  SpoolOutputToFile json_string path result jsonOutput w = (w', inr tt) <->
  (path ∉ locked (disk w)) /\
  String.length (spool_text json_string result jsonOutput) <= quota (disk w) /\
  w' = with_content path (spool_text json_string result jsonOutput) w.
Proof.
  unfold SpoolOutputToFile, mbind, io_mbind, io_bind, os_Create.
  destruct (decide (path ∈ locked (disk w))) as [Hl|Hl].
  { split; [discriminate | tauto]. }
  fold (with_content path "" w).
  assert (Hnew : contents (disk (with_content path "" w)) !! path = Some "")
    by apply lookup_insert_eq.
  assert (H0 : String.length "" <= quota (disk (with_content path "" w)))
    by (simpl; lia).
  assert (Hbody :
    (if jsonOutput
     then file_Write path (Encode json_string result)
     else for_each result (fun r =>
            for_each (TLDList r) (fun t => file_Write path (spool_line r t))))
      (with_content path "" w)
    = for_each (if jsonOutput
                then [Encode json_string result]
                else flat_map (fun r => map (spool_line r) (TLDList r)) result)
        (file_Write path) (with_content path "" w)).
  { destruct jsonOutput; [|apply spool_loops].
    simpl. unfold mbind, io_mbind, io_bind.
    destruct (file_Write path (Encode json_string result) (with_content path "" w))
      as [w1 [e|[]]]; reflexivity. }
  rewrite Hbody. clear Hbody.
  set (chunks := if jsonOutput
                 then [Encode json_string result]
                 else flat_map (fun r => map (spool_line r) (TLDList r)) result).
  assert (Htext : text_of chunks = spool_text json_string result jsonOutput).
  { unfold spool_text, chunks. destruct jsonOutput; [|reflexivity].
    simpl. apply append_nil_r. }
  destruct (write_all_spec path chunks (with_content path "" w) "" Hnew H0) as [W1 W2].
  rewrite Htext in W1, W2. change ("" +:+ ?t) with t in W1, W2. simpl in W1, W2.
  split.
  - intros Hrun. pose proof (W2 _ Hrun) as Hfit.
    rewrite (W1 Hfit) in Hrun. injection Hrun as <-.
    rewrite with_content_twice. tauto.
  - intros (_ & Hfit & ->). rewrite (W1 Hfit). now rewrite with_content_twice.
Qed.

(** * The properties of the specification *)

Lemma dones_without_Done (evs : list event) : EvDone ∉ evs -> dones evs = [].
Proof.
  induction evs as [|ev evs IH]; intros Hnot; [reflexivity|].
  apply not_elem_of_cons in Hnot as [Hev Hevs].
  simpl. destruct ev; try (now apply IH). congruence.
Qed.

Section Claims.

Variable LookupHost : string -> LookupResult.
Variable json_string : string -> string.


(** C10. Every call of [checkDomains] performs the events of its loop,
    none of them a send or a [Done], then sends exactly one [Result],
    then decrements the wait group; when every lookup fails the result
    carries the empty verdict list. So the channel carries one result
    per goroutine and the fan-in ends: a run can always be completed, no
    run is longer than what there is to do, a run that has not ended can
    take a step, and a run that has ended has received exactly one
    result per spawned goroutine. *)
Theorem checkDomains_sends_once_and_fan_in_ends (opts : Options) (fs : FS)
    (name : string) (tlds : list string) :
  (exists diag,
     checkDomains LookupHost name tlds
       = diag ++ [EvSend (checkDomains_result LookupHost name tlds); EvDone] /\
     sends diag = [] /\ dones diag = []) /\
  ((forall tld, tld ∈ tlds -> ~ probe_ok LookupHost name tld) ->
   checkDomains_result LookupHost name tlds = mkResult name []) /\
  (exists schedule s,
     exec json_string opts schedule (init LookupHost opts fs) = Some s /\
     exited s <> None) /\
  (forall schedule s,
     exec json_string opts schedule (init LookupHost opts fs) = Some s ->
     length schedule <= remaining (init LookupHost opts fs) /\
     (exited s = None -> exists c s', step json_string opts c s = Some s') /\
     (exited s <> None ->
      received s ≡ₚ map (fun p => checkDomains_result LookupHost (fst p) [snd p])
                      (main_pairs opts) /\
      length (received s) = length (main_pairs opts))).
Proof.
  repeat split.
  - exists (fst (checkDomains_loop LookupHost name tlds [])).
    destruct (checkDomains_loop_sends LookupHost name tlds []) as [Hs Hd].
    repeat split; [apply checkDomains_shape | exact Hs | now apply dones_without_Done].
  - intros Hall. unfold checkDomains_result. f_equal.
    rewrite checkDomains_loop_verdicts. simpl.
    induction tlds as [|tld rest IH]; [reflexivity|]. simpl.
    rewrite IH by (intros t Ht; apply Hall; now right).
    assert (Hbad : ~ probe_ok LookupHost name tld) by (apply Hall; now left).
    unfold probe_ok, verdict in *.
    destruct (isDomainNameAvailable LookupHost (name +:+ "." +:+ tld)) as [b [e|]];
      [reflexivity | now destruct Hbad].
  - apply (Inv_completes LookupHost json_string opts fs), Inv_init.
  - apply exec_remaining in H. lia.
  - intros Hex. apply (Inv_progress LookupHost json_string opts fs); [|exact Hex].
    apply Inv_reachable. now exists schedule.
  - apply (Inv_exited_complete LookupHost json_string opts fs); [|exact H0].
    apply Inv_reachable. now exists schedule.
  - rewrite (Permutation_length
               (proj1 (Inv_exited_complete LookupHost json_string opts fs s
                         (Inv_reachable _ _ _ _ _ (ex_intro _ schedule H)) H0))).
    apply length_map.
Qed.

(** A resolver whose errors are DNS errors never makes
    [isDomainNameAvailable] return an error. *)
Lemma dns_errors_only_probe_ok (name tld : string) :
  dns_errors_only LookupHost -> probe_ok LookupHost name tld.
Proof.
  intros Hdns. unfold probe_ok, isDomainNameAvailable.
  destruct (LookupHost (name +:+ "." +:+ tld)) as [addrs [e|]] eqn:Hl; [|reflexivity].
  destruct (Hdns (name +:+ "." +:+ tld) e) as [d ->]; [now rewrite Hl | reflexivity].
Qed.




(** C6, as the code has it. The end of the program is a join: when it
    has ended every goroutine has ended, the counter is zero, the
    channel is closed and all the results were received. In JSON mode
    [main] presents nothing before that, and then the one document of
    the accumulated results, printed or written to the output file. In
    text mode [main] has at every moment printed the lines of the
    results received so far: it presents each result on receipt. *)
Theorem join_barrier_and_presentation (opts : Options) (fs : FS) (s : State) :
  Reachable LookupHost json_string opts fs s ->
  (exited s <> None ->
   concat (goroutines s) = [] /\ wg s = 0 /\ closed s = true /\
   received s ≡ₚ map (fun p => checkDomains_result LookupHost (fst p) [snd p])
                   (main_pairs opts)) /\
  (Json opts = true -> exited s = None -> presented s = [] /\ files s = fs) /\
  (Json opts = true -> exited s <> None ->
   jsonResults s = received s /\ json_final json_string opts fs s /\
   (Output opts <> "" -> exited s = Some 0 ->
    contents (files s) !! Output opts
      = Some (MarshalIndent json_string (jsonResults s)))) /\
  (Json opts = false ->
   presented s = flat_map (fun r => map (main_line r) (TLDList r)) (received s) /\
   files s = fs).
Proof.
  intros Hr. pose proof (Inv_reachable _ _ _ _ _ Hr) as HI.
  split; [|split; [|split]].
  - intros Hex. destruct (Inv_exited_ended _ _ _ _ s HI Hex) as (Hg & Hw & Hc).
    repeat split; try assumption.
    apply (Inv_exited_complete _ _ _ _ s HI Hex).
  - apply (inv_json_running _ _ _ _ s HI).
  - intros HJ Hex. pose proof (inv_json_exited _ _ _ _ s HI HJ Hex) as Hfin.
    repeat split; [apply (inv_json _ _ _ _ s HI HJ) | exact Hfin |].
    intros Ho H0. unfold json_final in Hfin. rewrite decide_False in Hfin by exact Ho.
    destruct (os_WriteFile (Output opts) (MarshalIndent json_string (jsonResults s))
                (start fs)) as [w [err|[]]] eqn:Hw.
    + destruct Hfin as (_ & _ & H1). congruence.
    + destruct Hfin as (_ & -> & _). apply (os_WriteFile_ok _ _ _ _ Hw).
  - intros HJ. destruct (inv_text _ _ _ _ s HI HJ) as (Hp & Hf & _). now split.
Qed.

(** With a resolver whose errors are DNS errors, [run] returns results:
    those of all the non-blank names. *)
Lemma run_dns_errors_only (GreenString RedString : string -> string) (opts : Options)
    (w : World) :
  dns_errors_only LookupHost ->
  exists w' rs,
    run LookupHost GreenString RedString opts w = (w', inr rs) /\
    rs = map (fun name =>
                mkResult name (flat_map (verdict LookupHost name) (TLDsList opts)))
           (filter (fun name => name <> "") (NamesList opts)) /\
    lookups (console w') =
      lookups (console w) ++
        flat_map (fun name => map (fun tld => name +:+ "." +:+ tld) (TLDsList opts))
          (filter (fun name => name <> "") (NamesList opts)).
Proof.
  intros Hdns.
  pose proof (run_spec LookupHost GreenString RedString opts w) as Hrun.
  destruct (run LookupHost GreenString RedString opts w) as [w' [e|rs]].
  - exfalso. apply Exists_exists in Hrun as (name & _ & _ & Hbad).
    apply Exists_exists in Hbad as (tld & _ & Hfail).
    pose proof (dns_errors_only_probe_ok name tld Hdns) as Hok.
    unfold probe_ok, probe_fails in *. congruence.
  - exists w', rs. split; [reflexivity|]. tauto.
Qed.

(** With a resolver whose errors are DNS errors, every pair has its
    verdict, and a failed lookup gives the verdict available. *)
Lemma verdict_dns_errors_only (name tld : string) :
  dns_errors_only LookupHost ->
  verdict LookupHost name tld
    = [mkTLD tld (bool_decide (snd (LookupHost (name +:+ "." +:+ tld)) <> None))].
Proof.
  intros Hdns. unfold verdict, isDomainNameAvailable.
  destruct (LookupHost (name +:+ "." +:+ tld)) as [addrs [e|]] eqn:Hl; cbn [snd].
  - destruct (Hdns (name +:+ "." +:+ tld) e) as [d ->]; [now rewrite Hl|].
    now rewrite bool_decide_eq_true_2.
  - now rewrite bool_decide_eq_false_2 by congruence.
Qed.

Lemma verdicts_dns_errors_only (name : string) (tlds : list string) :
  dns_errors_only LookupHost ->
  flat_map (verdict LookupHost name) tlds
    = map (fun tld =>
             mkTLD tld (bool_decide (snd (LookupHost (name +:+ "." +:+ tld)) <> None)))
        tlds.
Proof.
  intros Hdns. induction tlds as [|tld rest IH]; [reflexivity|].
  cbn [flat_map map]. now rewrite IH, (verdict_dns_errors_only name tld Hdns).
Qed.

(** C3, as the code has it. In [main], when the run has ended, a
    non-blank name is carried by one result per TLD for each of its
    occurrences in the input, whatever its lookups returned; the results
    come in the order of completion. In [run], with a resolver whose
    errors are DNS errors, as those of [net.LookupHost] are, the results
    carry the non-blank names of the input, each entry once and in
    input order, and each result has one verdict per TLD, failed lookups
    included. *)
Theorem names_in_results (opts : Options) (fs : FS) :
  (forall s name,
     Reachable LookupHost json_string opts fs s -> exited s <> None -> name <> "" ->
     count name (map Name (received s))
       = count name (NamesList opts) * length (TLDsList opts)) /\
  (dns_errors_only LookupHost ->
   forall GreenString RedString w,
     exists w' rs,
       run LookupHost GreenString RedString opts w = (w', inr rs) /\
       map Name rs = filter (fun name => name <> "") (NamesList opts) /\
       Forall (fun r => map TLDName (TLDList r) = TLDsList opts) rs).
Proof.
  split.
  - intros s name Hr Hex _.
    destruct (Inv_exited_complete LookupHost json_string opts fs s
                (Inv_reachable _ _ _ _ _ Hr) Hex) as [Hrec _].
    rewrite (count_Permutation name _ _ (Permutation_map Name Hrec)).
    rewrite map_map. simpl. apply count_main_pairs_name.
  - intros Hdns GreenString RedString w.
    destruct (run_dns_errors_only GreenString RedString opts w Hdns)
      as (w' & rs & Hrun & -> & _).
    exists w'. eexists. split; [exact Hrun|]. split.
    + rewrite map_map. simpl. apply map_id.
    + apply Forall_map, Forall_forall. intros name _. cbn [TLDList].
      rewrite (verdicts_dns_errors_only name _ Hdns), map_map. simpl. apply map_id.
Qed.


(** C8. Finalizing a completed accumulation is a function of the
    accumulation. [SpoolOutputToFile], run a second time on the same
    results, succeeds again and leaves the file, and the whole world, as
    the first run left it: the file holds the rendering of the results
    and nothing else. And two runs of [main] that have ended after
    receiving the same results in the same order have presented the
    same output, left the same files and exited with the same status. *)
Theorem finalization_is_deterministic (opts : Options) (fs : FS) :
  (forall path result jsonOutput w w1,
     SpoolOutputToFile json_string path result jsonOutput w = (w1, inr tt) ->
     contents (disk w1) !! path = Some (spool_text json_string result jsonOutput) /\
     SpoolOutputToFile json_string path result jsonOutput w1 = (w1, inr tt)) /\
  (forall s1 s2,
     Reachable LookupHost json_string opts fs s1 ->
     Reachable LookupHost json_string opts fs s2 ->
     exited s1 <> None -> exited s2 <> None ->
     received s1 = received s2 ->
     presented s1 = presented s2 /\ files s1 = files s2 /\ exited s1 = exited s2).
Proof.
  split.
  - intros path result jsonOutput w w1 Hrun.
    apply SpoolOutputToFile_spec in Hrun as (Hl & Hfit & ->). split.
    + apply lookup_insert_eq.
    + apply SpoolOutputToFile_spec. repeat split; try assumption.
      now rewrite with_content_twice.
  - intros s1 s2 Hr1 Hr2 Hex1 Hex2 Hrec.
    pose proof (Inv_reachable _ _ _ _ _ Hr1) as HI1.
    pose proof (Inv_reachable _ _ _ _ _ Hr2) as HI2.
    destruct (Json opts) eqn:HJ.
    + pose proof (inv_json_exited _ _ _ _ s1 HI1 HJ Hex1) as F1.
      pose proof (inv_json_exited _ _ _ _ s2 HI2 HJ Hex2) as F2.
      unfold json_final in F1, F2.
      rewrite (inv_json _ _ _ _ s1 HI1 HJ) in F1.
      rewrite (inv_json _ _ _ _ s2 HI2 HJ), <- Hrec in F2.
      destruct (decide (Output opts = "")).
      * destruct F1 as (-> & -> & ->), F2 as (-> & -> & ->). auto.
      * destruct (os_WriteFile _ _ _) as [w [err|u]];
          destruct F1 as (-> & -> & ->), F2 as (-> & -> & ->); auto.
    + destruct (inv_text _ _ _ _ s1 HI1 HJ) as (-> & -> & [H1|H1]); [congruence|].
      destruct (inv_text _ _ _ _ s2 HI2 HJ) as (-> & -> & [H2|H2]); [congruence|].
      rewrite Hrec, H1, H2. auto.
Qed.

End Claims.

(** * Concrete runs *)

(** C9 at a lookup that times out: the domain is reported available and
    the error is nil. *)
Lemma isDomainNameAvailable_timeout_has_no_error :
  fst (isDomainNameAvailable timeout_resolver "example.com") = true /\
  snd (isDomainNameAvailable timeout_resolver "example.com") = None.
Proof.
  split; [reflexivity|].
  apply (proj1 (isDomainNameAvailable_available_xor_error timeout_resolver "example.com")).
  reflexivity.
Defined.

(** C10 at two names and one TLD, the lookup of the first name failing:
    the run in spawn order ends, and [main] has received two results,
    the first with no verdict. *)
Lemma fan_in_ends_with_a_failed_probe :
  checkDomains_result (failing_resolver "a.com") "a" ["com"] = mkResult "a" [] /\
  exists s,
    exec plain_quote (options_for false ["a"; "b"] ["com"])
      (repeat (RunProbe 0) 4 ++ one_by_one [1] 3)
      (init (failing_resolver "a.com") (options_for false ["a"; "b"] ["com"]) empty_disk)
      = Some s /\
    length (received s) = 2.
Proof.
  pose proof (checkDomains_sends_once_and_fan_in_ends (failing_resolver "a.com")
                plain_quote (options_for false ["a"; "b"] ["com"]) empty_disk
                "a" ["com"]) as (_ & Hempty & _ & Hruns).
  split.
  - apply Hempty. intros tld Htld. apply list_elem_of_singleton in Htld as ->.
    vm_compute. discriminate.
  - eexists. split; [vm_compute; reflexivity|].
    apply (Hruns (repeat (RunProbe 0) 4 ++ one_by_one [1] 3)).
    + vm_compute; reflexivity.
    + vm_compute; discriminate.
Defined.



(** C6, as stated, fails in text mode: after the first probe has sent
    its result, [main] has printed its line, while that goroutine has
    not called [Done] yet and the second probe has not even started. *)
Lemma text_mode_presents_before_the_join :
  exists s,
    exec plain_quote (options_for false ["a"] ["com"; "net"]) [RunProbe 0; RunProbe 0]
      (init registered_resolver (options_for false ["a"] ["com"; "net"]) empty_disk)
      = Some s /\
    presented s = ["a.com is not available" +:+ nl] /\
    goroutines s = [[EvDone]; checkDomains registered_resolver "a" ["net"]] /\
    wg s = 2 /\ closed s = false /\ exited s = None.
Proof. eexists. split; [vm_compute; reflexivity|]. repeat split. Qed.

(** C6 in JSON mode, in the middle of a run: one result received, one
    probe still to send, and nothing presented. *)
Lemma json_mode_presents_nothing_before_the_join :
  exists s,
    exec plain_quote (options_for true ["a"] ["com"; "net"])
      [RunProbe 0; RunProbe 0; RunProbe 0; RunProbe 1]
      (init registered_resolver (options_for true ["a"] ["com"; "net"]) empty_disk)
      = Some s /\
    length (received s) = 1 /\
    presented s = [] /\ files s = empty_disk.
Proof.
  eexists. split; [vm_compute; reflexivity|]. split; [reflexivity|].
  match goal with
  | |- presented ?s = _ /\ _ =>
      refine (proj1 (proj2 (join_barrier_and_presentation registered_resolver
                              plain_quote (options_for true ["a"] ["com"; "net"])
                              empty_disk s _)) _ _)
  end.
  - exists [RunProbe 0; RunProbe 0; RunProbe 0; RunProbe 1]. vm_compute; reflexivity.
  - reflexivity.
  - reflexivity.
Defined.

(** C3, as stated, fails. In [main], with two names and two TLDs, each
    name is carried by two results, and they come in the order in which
    the probes ended, here [b] first. *)
Lemma names_repeat_and_follow_completion :
  exists s,
    exec plain_quote (options_for true ["a"; "b"] ["com"; "net"])
      (one_by_one [2; 0; 1; 3] 3)
      (init registered_resolver (options_for true ["a"; "b"] ["com"; "net"]) empty_disk)
      = Some s /\
    exited s = Some 0 /\
    map Name (received s) = ["b"; "a"; "a"; "b"] /\
    presented s = [MarshalIndent plain_quote (received s) +:+ nl].
Proof.
  eexists. split; [vm_compute; reflexivity|]. repeat split.
Qed.

(** C3 at the names [a], blank and [b] under two TLDs, the lookup of
    [a.com] timing out: [main] receives two results that carry [a], and
    [run] returns the results of [a] and [b] in this order, each with
    its two verdicts. *)
Lemma names_of_a_blank_and_b :
  (exists s,
     exec plain_quote (options_for false ["a"; ""; "b"] ["com"; "net"])
       (one_by_one [0; 1; 2; 3; 4; 5] 3)
       (init (timeout_at "a.com") (options_for false ["a"; ""; "b"] ["com"; "net"])
          empty_disk)
       = Some s /\
     count "a" (map Name (received s)) = 2) /\
  (exists w' rs,
     run (timeout_at "a.com") no_color no_color
       (options_for false ["a"; ""; "b"] ["com"; "net"]) (start empty_disk)
       = (w', inr rs) /\
     map Name rs = ["a"; "b"] /\
     Forall (fun r => map TLDName (TLDList r) = ["com"; "net"]) rs).
Proof.
  pose proof (names_in_results (timeout_at "a.com") plain_quote
                (options_for false ["a"; ""; "b"] ["com"; "net"]) empty_disk)
    as [Hmain Hrun].
  split.
  - eexists. split; [vm_compute; reflexivity|].
    match goal with
    | |- count _ (map Name (received ?s)) = _ => apply (Hmain s "a")
    end.
    + exists (one_by_one [0; 1; 2; 3; 4; 5] 3). vm_compute; reflexivity.
    + vm_compute; discriminate.
    + discriminate.
  - apply (fun Hdns => Hrun Hdns no_color no_color (start empty_disk)).
    intros domain e. unfold timeout_at, timeout_resolver, registered_resolver.
    destruct (decide (domain = "a.com")); cbn [snd]; [|discriminate].
    intros [= <-]. now eexists.
Defined.



(** C8 at one result with one verdict, in text form: the first run
    writes the line, the second leaves the world as it is. *)
Lemma spool_twice :
  exists w1,
    SpoolOutputToFile plain_quote "results.txt" [mkResult "a" [mkTLD "com" true]] false
      (start empty_disk) = (w1, inr tt) /\
    contents (disk w1) !! "results.txt" = Some ("a.com : true" +:+ nl) /\
    SpoolOutputToFile plain_quote "results.txt" [mkResult "a" [mkTLD "com" true]] false w1
      = (w1, inr tt).
Proof.
  eexists. split; [vm_compute; reflexivity|].
  match goal with
  | |- contents (disk ?w1) !! _ = _ /\ _ =>
      apply (proj1 (finalization_is_deterministic registered_resolver plain_quote
                      (options_for false [] []) empty_disk)
               "results.txt" [mkResult "a" [mkTLD "com" true]] false
               (start empty_disk) w1)
  end.
  vm_compute; reflexivity.
Defined.

(** C4 fails for [main]: with the names [a] and blank under [com],
    [main] probes [.com] for the blank name and receives a result that
    carries the blank name, which it prints; [run], on the same input,
    skips the blank name. *)
Lemma main_probes_the_blank_name :
  (exists s,
     exec plain_quote (options_for false ["a"; ""] ["com"]) (one_by_one [0; 1] 3)
       (init registered_resolver (options_for false ["a"; ""] ["com"]) empty_disk)
       = Some s /\
     exited s = Some 0 /\
     probed s = ["a.com"; ".com"] /\
     map Name (received s) = ["a"; ""] /\
     presented s = ["a.com is not available" +:+ nl; ".com is not available" +:+ nl]) /\
  lookups (console (fst (run registered_resolver no_color no_color
                           (options_for false ["a"; ""] ["com"]) (start empty_disk))))
    = ["a.com"] /\
  snd (run registered_resolver no_color no_color
         (options_for false ["a"; ""] ["com"]) (start empty_disk))
    = inr [mkResult "a" [mkTLD "com" false]].
Proof.
  split; [|split; vm_compute; reflexivity].
  eexists. split; [vm_compute; reflexivity|]. repeat split.
Qed.

(** * Further properties of the code *)

Section ProbeTask.

Variable LookupHost : string -> LookupResult.

Lemma checkDomains_loop_account (name : string) (tlds : list string) (acc : list TLD) :
  length (snd (checkDomains_loop LookupHost name tlds acc))
    + length (prints (fst (checkDomains_loop LookupHost name tlds acc)))
  = length acc + length tlds.
Proof.
  revert acc. induction tlds as [|tld rest IH]; intros acc; simpl; [lia|].
  destruct (isDomainNameAvailable LookupHost (name +:+ "." +:+ tld)) as [b [e|]].
  - specialize (IH acc).
    destruct (checkDomains_loop LookupHost name rest acc) as [evs final]; simpl in *. lia.
  - specialize (IH (acc ++ [mkTLD tld b])). rewrite length_app in IH.
    destruct (checkDomains_loop LookupHost name rest (acc ++ [mkTLD tld b]))
      as [evs final]; simpl in *. lia.
Qed.

(** X1. For any list of TLDs, [checkDomains] accounts for every TLD
    exactly once: the verdicts it sends are those of the TLDs whose
    lookup returned no error, in the order of the list, every other TLD
    gets one diagnostic on standard output, and a verdict says available
    exactly when the lookup failed with a DNS error. *)
Theorem checkDomains_verdict_or_diagnostic (name : string) (tlds : list string) :
  map TLDName (TLDList (checkDomains_result LookupHost name tlds))
    = filter (fun tld =>
                snd (isDomainNameAvailable LookupHost (name +:+ "." +:+ tld)) = None)
        tlds /\
  length (TLDList (checkDomains_result LookupHost name tlds))
    + length (prints (checkDomains LookupHost name tlds))
    = length tlds /\
  Forall (fun t =>
            IsAvailable t = true <->
            exists d, snd (LookupHost (name +:+ "." +:+ TLDName t)) = Some (ErrDNS d))
    (TLDList (checkDomains_result LookupHost name tlds)).
Proof.
  split; [|split].
  - rewrite checkDomains_result_verdicts.
    induction tlds as [|tld rest IH]; [reflexivity|].
    cbn [flat_map]. rewrite map_app, IH. unfold verdict at 1.
    destruct (isDomainNameAvailable LookupHost (name +:+ "." +:+ tld)) as [b [e|]] eqn:E.
    + rewrite filter_cons_False by (rewrite E; discriminate). reflexivity.
    + rewrite filter_cons_True by (rewrite E; reflexivity). reflexivity.
  - rewrite checkDomains_shape, prints_app. simpl. rewrite app_nil_r.
    pose proof (checkDomains_loop_account name tlds []) as H. simpl in H. exact H.
  - rewrite checkDomains_result_verdicts. apply Forall_forall. intros t Ht.
    apply list_elem_of_In, in_flat_map in Ht as (tld & _ & Ht).
    unfold verdict in Ht. rewrite isDomainNameAvailable_cases in Ht.
    destruct (snd (LookupHost (name +:+ "." +:+ tld))) as [[d|msg]|] eqn:E;
      simpl in Ht; try tauto; destruct Ht as [<-|[]]; simpl; rewrite E.
    + split; [intros _; now exists d | reflexivity].
    + split; [discriminate | intros [d [=]]].
Qed.

End ProbeTask.

Section FanIn.

Variable LookupHost : string -> LookupResult.
Variable json_string : string -> string.

(** X2. A run of [main] never panics: as long as the program has not
    exited, a goroutine that still has an event to perform can perform
    it, because the channel is not closed before every goroutine has
    called [Done] and the counter of the wait group is still positive. *)
Theorem main_never_panics (opts : Options) (fs : FS) (s : State) (i : nat)
    (ev : event) (rest : list event) :
  Reachable LookupHost json_string opts fs s ->
  exited s = None ->
  goroutines s !! i = Some (ev :: rest) ->
  closed s = false /\ 0 < wg s /\
  exists s', step json_string opts (RunProbe i) s = Some s'.
Proof.
  intros Hr Hex Hi. pose proof (Inv_reachable _ _ _ _ _ Hr) as HI.
  pose proof (pending_not_closed _ _ _ _ s i ev rest HI Hi) as Hnc.
  pose proof (pending_wg_positive _ _ _ _ s i ev rest HI Hi) as Hpos.
  repeat split; [exact Hnc | exact Hpos |].
  unfold step. rewrite Hex, Hi, Hnc.
  destruct ev; try (eexists; reflexivity).
  unfold wg_Done. simpl. destruct (wg s); [lia|]. eexists; reflexivity.
Qed.

(** X3. With no name or no TLD, [main] spawns nothing: a run that has
    ended has made no query and received no result, has printed nothing
    in text mode, and in JSON mode has presented the document [null],
    on standard output when no output file was asked for. *)
Theorem main_on_empty_input (opts : Options) (fs : FS) (s : State) :
  NamesList opts = [] \/ TLDsList opts = [] ->
  Reachable LookupHost json_string opts fs s ->
  exited s <> None ->
  probed s = [] /\ received s = [] /\
  (Json opts = false -> presented s = [] /\ exited s = Some 0) /\
  (Json opts = true -> Output opts = "" ->
   presented s = ["null" +:+ nl] /\ exited s = Some 0).
Proof.
  intros Hempty Hr Hex. pose proof (Inv_reachable _ _ _ _ _ Hr) as HI.
  assert (Hpairs : main_pairs opts = []).
  { unfold main_pairs. destruct Hempty as [-> | ->]; [reflexivity|].
    induction (NamesList opts) as [|n ns IH]; [reflexivity | exact IH]. }
  destruct (Inv_exited_complete _ _ _ _ s HI Hex) as [Hrec Hpr].
  rewrite Hpairs in Hrec, Hpr. simpl in Hrec, Hpr.
  apply Permutation_nil_r in Hrec, Hpr.
  repeat split; try assumption.
  - destruct (inv_text _ _ _ _ s HI H) as (Hp & _ & _). now rewrite Hp, Hrec.
  - destruct (inv_text _ _ _ _ s HI H) as (_ & _ & [H0|H0]); congruence.
  - pose proof (inv_json_exited _ _ _ _ s HI H Hex) as Hfin.
    unfold json_final in Hfin. rewrite decide_True in Hfin by exact H0.
    rewrite (inv_json _ _ _ _ s HI H), Hrec in Hfin. apply Hfin.
  - pose proof (inv_json_exited _ _ _ _ s HI H Hex) as Hfin.
    unfold json_final in Hfin. rewrite decide_True in Hfin by exact H0. apply Hfin.
Qed.

End FanIn.

Lemma events_of_app (i : nat) (t1 t2 : list (actor * event)) :
  events_of i (t1 ++ t2) = events_of i t1 ++ events_of i t2.
Proof. unfold events_of. apply flat_map_app. Qed.

Lemma events_of_main (i : nat) (tr : list (actor * event)) :
  Forall (fun ae => fst ae = Main) tr -> events_of i tr = [].
Proof.
  induction 1 as [|[a ev] tr Ha _ IH]; [reflexivity|].
  simpl in Ha. subst a. exact IH.
Qed.

(** What a step does to the goroutines and to the trace: either one
    goroutine performs its next event, followed by events of [main]
    only, or the goroutines stay as they are and only [main] acts. *)
Lemma step_shape (json_string : string -> string) (opts : Options) (c : choice)
    (s s' : State) :
  step json_string opts c s = Some s' ->
  (exists j ev rest mainevs,
     goroutines s !! j = Some (ev :: rest) /\
     goroutines s' = <[j := rest]> (goroutines s) /\
     trace s' = trace s ++ (Probe j, ev) :: mainevs /\
     Forall (fun ae => fst ae = Main) mainevs) \/
  (exists mainevs,
     goroutines s' = goroutines s /\
     trace s' = trace s ++ mainevs /\
     Forall (fun ae => fst ae = Main) mainevs).
Proof.
  unfold step. destruct (exited s) eqn:Hex; [discriminate|].
  destruct c as [j| |].
  - destruct (goroutines s !! j) as [[|ev rest]|] eqn:Hj; try discriminate.
    intros Hstep. left. exists j, ev, rest.
    assert (Hs' : exists mainevs,
               goroutines s' = <[j := rest]> (goroutines s) /\
               trace s' = trace s ++ (Probe j, ev) :: mainevs /\
               Forall (fun ae => fst ae = Main) mainevs).
    { destruct ev as [d|t|r|].
      + injection Hstep as <-. exists []. repeat split; constructor.
      + injection Hstep as <-. exists []. repeat split; constructor.
      + destruct (closed s); [discriminate|]. injection Hstep as <-.
        unfold main_body. destruct (Json opts); simpl.
        * exists []. repeat split; constructor.
        * eexists. repeat split; [now rewrite <- app_assoc|].
          apply Forall_forall. intros ae Hae.
          apply list_elem_of_In, in_map_iff in Hae as (t & <- & _). reflexivity.
      + unfold wg_Done in Hstep. simpl in Hstep. destruct (wg s); [discriminate|].
        injection Hstep as <-. exists []. repeat split; constructor. }
    destruct Hs' as (mainevs & H1 & H2 & H3). now exists mainevs.
  - unfold closer. destruct (closed s); [discriminate|].
    destruct (wg s); [|discriminate]. intros [= <-]. right. exists [].
    simpl. rewrite app_nil_r. repeat split; constructor.
  - destruct (closed s); [|discriminate]. intros [= <-]. right.
    unfold main_finish. destruct (Json opts); simpl.
    + destruct (decide (Output opts = "")); simpl.
      * eexists [_]. repeat split. repeat constructor.
      * destruct (os_WriteFile _ _ _) as [w [err|u]]; simpl.
        -- eexists [_]. repeat split. repeat constructor.
        -- exists []. rewrite app_nil_r. repeat split; constructor.
    + exists []. rewrite app_nil_r. repeat split; constructor.
Qed.

(** No goroutine is added or removed in a run. *)
Lemma exec_goroutines_length (json_string : string -> string) (opts : Options)
    (schedule : list choice) (s s' : State) :
  exec json_string opts schedule s = Some s' ->
  length (goroutines s') = length (goroutines s).
Proof.
  revert s. induction schedule as [|c cs IH]; intros s Hrun; simpl in Hrun.
  - now injection Hrun as <-.
  - destruct (step json_string opts c s) as [s1|] eqn:Hs; [|discriminate].
    rewrite (IH s1 Hrun).
    destruct (step_shape _ _ _ _ _ Hs)
      as [(j & ev & rest & mainevs & _ & -> & _)|(mainevs & -> & _)];
      [apply length_insert | reflexivity].
Qed.

Section ProgramOrder.

Variable LookupHost : string -> LookupResult.
Variable json_string : string -> string.
Variable opts : Options.
Variable fs : FS.

(** What goroutine [i] has done and what it has still to do make up its
    program. *)
Lemma program_order_exec (schedule : list choice) (s s' : State) :
  (forall i, events_of i (trace s) ++ default [] (goroutines s !! i)
             = default [] (main_spawn LookupHost opts !! i)) ->
  exec json_string opts schedule s = Some s' ->
  forall i, events_of i (trace s') ++ default [] (goroutines s' !! i)
            = default [] (main_spawn LookupHost opts !! i).
Proof.
  revert s. induction schedule as [|c cs IH]; intros s HP He; simpl in He.
  - now injection He as <-.
  - destruct (step json_string opts c s) as [s1|] eqn:Hs; [|discriminate].
    apply (IH s1); [|exact He]. clear IH He. intros i.
    destruct (step_shape _ _ _ _ _ Hs)
      as [(j & ev & rest & mainevs & Hj & -> & -> & Hmain)
         |(mainevs & -> & -> & Hmain)].
    + change ((Probe j, ev) :: mainevs) with ([(Probe j, ev)] ++ mainevs).
      rewrite !events_of_app, (events_of_main i mainevs Hmain), app_nil_r.
      specialize (HP i). simpl. destruct (decide (j = i)) as [->|Hne].
      * rewrite Hj in HP. simpl in HP.
        rewrite list_lookup_insert_eq by (now apply lookup_lt_Some in Hj).
        simpl. now rewrite <- app_assoc.
      * rewrite list_lookup_insert_ne by exact Hne. now rewrite app_nil_r.
    + rewrite events_of_app, (events_of_main i mainevs Hmain), app_nil_r. apply HP.
Qed.

(** X4. Each goroutine performs its events in program order: at any
    moment of a run, what the goroutine spawned for the [i]-th pair has
    done so far, followed by what it has still to do, is the program of
    [checkDomains] for that pair. So a result that [main] has received
    from it is the result of that pair, and the query for the pair was
    made before the result was sent. *)
Theorem goroutine_events_in_program_order (s : State) (i : nat) (name tld : string) :
  Reachable LookupHost json_string opts fs s ->
  main_pairs opts !! i = Some (name, tld) ->
  (exists rem,
     goroutines s !! i = Some rem /\
     events_of i (trace s) ++ rem = checkDomains LookupHost name [tld]) /\
  (forall before r after,
     events_of i (trace s) = before ++ EvSend r :: after ->
     r = checkDomains_result LookupHost name [tld] /\
     EvLookup (name +:+ "." +:+ tld) ∈ before).
Proof.
  intros [schedule Hrun] Hpair.
  assert (Hspawn : main_spawn LookupHost opts !! i
                   = Some (checkDomains LookupHost name [tld])).
  { unfold main_spawn. change map with (@fmap list _) at 1.
    now rewrite list_lookup_fmap, Hpair. }
  pose proof (program_order_exec schedule (init LookupHost opts fs) s
                (fun j => eq_refl) Hrun i) as HP.
  rewrite Hspawn in HP. simpl in HP.
  pose proof (exec_goroutines_length _ _ _ _ _ Hrun) as Hlen. simpl in Hlen.
  destruct (lookup_lt_is_Some_2 (goroutines s) i) as [rem Hrem].
  { rewrite Hlen. now apply lookup_lt_Some in Hspawn. }
  rewrite Hrem in HP. simpl in HP. split; [now exists rem|].
  intros before r after Hsplit. rewrite Hsplit, <- app_assoc in HP.
  rewrite checkDomains_shape in HP. unfold checkDomains_result in *.
  simpl in HP. simpl.
  destruct (isDomainNameAvailable LookupHost (name +:+ "." +:+ tld)) as [b [e|]];
    simpl in HP |- *;
    repeat match goal with
           | H : ?l ++ EvSend _ :: _ = _ |- _ => destruct l; simplify_eq/=
           end;
    (split; [reflexivity | apply elem_of_cons; now left]).
Qed.

End ProgramOrder.

Section FanInConsole.

Variable LookupHost : string -> LookupResult.
Variable json_string : string -> string.

Lemma pairs_account (ps : list (string * string)) :
  length (flat_map (fun r => map (main_line r) (TLDList r))
            (map (fun p => checkDomains_result LookupHost (fst p) [snd p]) ps))
  + length (flat_map (fun p => prints (checkDomains LookupHost (fst p) [snd p])) ps)
  = length ps.
Proof.
  induction ps as [|[n t] ps IH]; [reflexivity|].
  cbn [map flat_map fst snd]. rewrite !length_app, length_map.
  pose proof (checkDomains_loop_account LookupHost n [t] []) as H.
  rewrite checkDomains_shape, prints_app. unfold checkDomains_result at 1.
  cbn [TLDList length] in *. simpl (prints [_; _]). rewrite app_nil_r.
  lia.
Qed.

(** X5. When a run of [main] has ended, the console accounts for every
    pair exactly once. The diagnostics the probes printed are those of
    the failed lookups; in text mode the lines [main] printed are those
    of the verdicts, so the lines and the diagnostics together are as
    many as there are pairs: a pair whose lookup failed shows as a
    diagnostic and has no line. *)
Theorem console_accounts_for_every_pair (opts : Options) (fs : FS) (s : State) :
  Reachable LookupHost json_string opts fs s ->
  exited s <> None ->
  prints (probe_events (trace s))
    ≡ₚ flat_map (fun p => prints (checkDomains LookupHost (fst p) [snd p]))
         (main_pairs opts) /\
  (Json opts = false ->
   presented s
     ≡ₚ flat_map (fun r => map (main_line r) (TLDList r))
          (map (fun p => checkDomains_result LookupHost (fst p) [snd p])
             (main_pairs opts)) /\
   length (presented s) + length (prints (probe_events (trace s)))
     = length (NamesList opts) * length (TLDsList opts)).
Proof.
  intros Hr Hex. pose proof (Inv_reachable _ _ _ _ _ Hr) as HI.
  destruct (Inv_exited_ended _ _ _ _ s HI Hex) as (Hnil & _ & _).
  pose proof (inv_events _ _ _ _ s HI) as Hev. rewrite Hnil, app_nil_r in Hev.
  assert (Hdiag : prints (probe_events (trace s))
                  ≡ₚ flat_map (fun p => prints (checkDomains LookupHost (fst p) [snd p]))
                       (main_pairs opts)).
  { unfold prints at 1. rewrite (Permutation_flat_map _ Hev). fold (prints).
    unfold main_spawn. induction (main_pairs opts) as [|p ps IH]; [reflexivity|].
    simpl. fold (prints (checkDomains LookupHost p.1 [p.2] ++
                           concat (map (fun p => checkDomains LookupHost p.1 [p.2]) ps))).
    rewrite prints_app. now apply Permutation_app_head. }
  split; [exact Hdiag|]. intros HJ.
  destruct (inv_text _ _ _ _ s HI HJ) as (Hp & _ & _).
  destruct (Inv_exited_complete _ _ _ _ s HI Hex) as [Hrec _].
  assert (Hlines : presented s
                   ≡ₚ flat_map (fun r => map (main_line r) (TLDList r))
                        (map (fun p => checkDomains_result LookupHost (fst p) [snd p])
                           (main_pairs opts))).
  { rewrite Hp. now apply Permutation_flat_map. }
  split; [exact Hlines|].
  rewrite (Permutation_length Hlines), (Permutation_length Hdiag), pairs_account.
  apply main_pairs_length.
Qed.

End FanInConsole.

Section RunConsole.

Variable LookupHost : string -> LookupResult.
Variable GreenString RedString : string -> string.

Lemma when_Print_eq (b : bool) (text : string) (w : World) :
  when b (Print text) w
    = (mkWorld (console w ++ (if b then [EvPrint text] else [])) (disk w), inr tt).
Proof.
  destruct b; simpl; [reflexivity|]. rewrite app_nil_r. now destruct w.
Qed.

Lemma when_VerboseOutput_eq (b s : bool) (w : World) :
  when b (VerboseOutput GreenString RedString s) w
    = (mkWorld
         (console w ++
            (if b
             then [EvPrint (verbose_cell GreenString RedString (mkTLD "" s))]
             else []))
         (disk w), inr tt).
Proof.
  destruct b; simpl; [|rewrite app_nil_r; now destruct w].
  unfold VerboseOutput, verbose_cell. simpl. now destruct s.
Qed.

Lemma lookups_cons_lookup (d : string) (evs : list event) :
  lookups (EvLookup d :: evs) = d :: lookups evs.
Proof. reflexivity. Qed.

Lemma prints_cons_lookup (d : string) (evs : list event) :
  prints (EvLookup d :: evs) = prints evs.
Proof. reflexivity. Qed.

Lemma lookups_optional_print (b : bool) (text : string) :
  lookups (if b then [EvPrint text] else []) = [].
Proof. now destruct b. Qed.

Lemma prints_optional_print (b : bool) (text : string) :
  prints (if b then [EvPrint text] else []) = if b then [text] else [].
Proof. now destruct b. Qed.

(** The inner loop of [run], with what it adds to the console. *)
Lemma run_tlds_console (opts : Options) (name : string) (todo : list string) :
  forall (tlds : list TLD) (w : World),
  exists evs,
    fst (run_tlds LookupHost GreenString RedString opts name todo tlds w)
      = mkWorld (console w ++ evs) (disk w) /\
    match snd (run_tlds LookupHost GreenString RedString opts name todo tlds w) with
    | inr r =>
        Forall (probe_ok LookupHost name) todo /\
        r = tlds ++ flat_map (verdict LookupHost name) todo /\
        lookups evs = map (fun tld => name +:+ "." +:+ tld) todo /\
        prints evs =
          (if Verbose opts
           then map (verbose_cell GreenString RedString)
                  (flat_map (verdict LookupHost name) todo)
           else [])
    | inl e =>
        exists pre tld post,
          todo = pre ++ tld :: post /\
          Forall (probe_ok LookupHost name) pre /\
          probe_fails LookupHost e name tld /\
          lookups evs = map (fun tld => name +:+ "." +:+ tld) (pre ++ [tld]) /\
          prints evs =
            (if Verbose opts
             then map (verbose_cell GreenString RedString)
                    (flat_map (verdict LookupHost name) pre)
             else []) ++ [Error e +:+ nl]
    end.
Proof.
  induction todo as [|tld rest IH]; intros tlds w.
  - exists []. simpl. rewrite !app_nil_r. split; [now destruct w|].
    repeat split; [constructor | now destruct (Verbose opts)].
  - cbn [run_tlds]. unfold mbind, io_mbind, io_bind at 1 2. unfold Lookup at 1 2.
    destruct (isDomainNameAvailable LookupHost (name +:+ "." +:+ tld)) as [b [e|]] eqn:E.
    + exists [EvLookup (name +:+ "." +:+ tld); EvPrint (Error e +:+ nl)]. simpl.
      split; [now rewrite <- app_assoc|].
      exists [], tld, rest. repeat split.
      * constructor.
      * unfold probe_fails. now rewrite E.
      * now destruct (Verbose opts).
    + unfold io_bind. rewrite when_VerboseOutput_eq. cbn [console disk].
      match goal with
      | |- context [run_tlds _ _ _ ?o ?n ?r ?t ?w1] =>
          destruct (IH t w1) as (evs & Hw & Hr);
          destruct (run_tlds LookupHost GreenString RedString o n r t w1) as [w' res]
      end.
      cbn [fst snd console disk] in *.
      assert (Hok : probe_ok LookupHost name tld) by (unfold probe_ok; now rewrite E).
      assert (Hv : verdict LookupHost name tld = [mkTLD tld b]).
      { rewrite (verdict_ok LookupHost name tld Hok). now rewrite E. }
      eexists (EvLookup (name +:+ "." +:+ tld)
                 :: (if Verbose opts
                     then [EvPrint (verbose_cell GreenString RedString (mkTLD "" b))]
                     else []) ++ evs).
      split.
      { rewrite Hw. f_equal. rewrite <- !app_assoc. reflexivity. }
      destruct res as [e|r].
      * destruct Hr as (pre & t & post & -> & Hpre & Hfail & Hlk & Hpr).
        exists (tld :: pre), t, post. repeat split.
        -- now constructor.
        -- exact Hfail.
        -- rewrite lookups_cons_lookup, lookups_app, lookups_optional_print, Hlk.
           reflexivity.
        -- rewrite prints_cons_lookup, prints_app, prints_optional_print, Hpr.
           cbn [flat_map]. rewrite Hv. now destruct (Verbose opts).
      * destruct Hr as (Hall & -> & Hlk & Hpr). repeat split.
        -- now constructor.
        -- cbn [flat_map]. rewrite Hv. now rewrite <- app_assoc.
        -- rewrite lookups_cons_lookup, lookups_app, lookups_optional_print, Hlk.
           reflexivity.
        -- rewrite prints_cons_lookup, prints_app, prints_optional_print, Hpr.
           cbn [flat_map]. rewrite Hv. now destruct (Verbose opts).
Qed.

Lemma run_domains_cons_blank (name : string) (names tlds : list string) :
  name = "" -> run_domains (name :: names) tlds = run_domains names tlds.
Proof. intros H. unfold run_domains. now rewrite filter_cons_False by tauto. Qed.

Lemma run_domains_cons (name : string) (names tlds : list string) :
  name <> "" ->
  run_domains (name :: names) tlds
    = map (fun tld => name +:+ "." +:+ tld) tlds ++ run_domains names tlds.
Proof. intros H. unfold run_domains. now rewrite filter_cons_True by exact H. Qed.

(** The outer loop of [run], with what it adds to the console. *)
Lemma run_names_console (opts : Options) (todo : list string) :
  forall (Results : list Result) (w w' : World) (res : error + list Result),
  run_names LookupHost GreenString RedString opts todo Results w = (w', res) ->
  exists evs,
    w' = mkWorld (console w ++ evs) (disk w) /\
    match res with
    | inr rs =>
        exists new,
          rs = Results ++ new /\
          new = map (fun name =>
                       mkResult name (flat_map (verdict LookupHost name) (TLDsList opts)))
                  (filter (fun name => name <> "") todo) /\
          lookups evs = run_domains todo (TLDsList opts) /\
          prints evs =
            (if Verbose opts
             then flat_map (verbose_row GreenString RedString) new
             else [])
    | inl e =>
        exists pre name post tpre tld tpost,
          todo = pre ++ name :: post /\ name <> "" /\
          TLDsList opts = tpre ++ tld :: tpost /\
          Forall (fun n => n <> "" -> Forall (probe_ok LookupHost n) (TLDsList opts)) pre /\
          Forall (probe_ok LookupHost name) tpre /\
          probe_fails LookupHost e name tld /\
          lookups evs
            = run_domains pre (TLDsList opts)
                ++ map (fun t => name +:+ "." +:+ t) (tpre ++ [tld]) /\
          exists before,
            prints evs = before ++ [Error e +:+ nl] /\
            (Verbose opts = false -> before = [])
    end.
Proof.
  induction todo as [|name rest IH]; intros Results w w' res Hrun.
  - injection Hrun as <- <-. exists []. rewrite !app_nil_r. split; [now destruct w|].
    exists []. rewrite app_nil_r. repeat split. now destruct (Verbose opts).
  - cbn [run_names] in Hrun. destruct (decide (name = "")) as [Hblank|Hname].
    + destruct (IH Results w w' res Hrun) as (evs & Hw & Hr).
      exists evs. split; [exact Hw|]. destruct res as [e|rs].
      * destruct Hr as (pre & n & post & tpre & tld & tpost & -> & Hn & Ht & Hpre
                        & Htpre & Hfail & Hlk & Hpr).
        exists (name :: pre), n, post, tpre, tld, tpost. repeat split; try assumption.
        -- constructor; [tauto | exact Hpre].
        -- now rewrite run_domains_cons_blank.
      * destruct Hr as (new & -> & -> & Hlk & Hpr). eexists. split; [reflexivity|].
        rewrite filter_cons_False by tauto. repeat split; [|exact Hpr].
        now rewrite run_domains_cons_blank.
    + unfold mbind, io_mbind, io_bind at 1 in Hrun. rewrite when_Print_eq in Hrun.
      unfold io_bind at 1 in Hrun.
      match type of Hrun with
      | context [run_tlds _ _ _ ?o ?n ?r ?t ?w1] =>
          destruct (run_tlds_console o n r t w1) as (evs1 & Hw1 & Hr1);
          destruct (run_tlds LookupHost GreenString RedString o n r t w1) as [w1' res1]
      end.
      cbn [fst snd console disk] in *. subst w1'.
      destruct res1 as [e|tlds].
      * injection Hrun as <- <-.
        eexists. split; [rewrite <- app_assoc; reflexivity|].
        destruct Hr1 as (tpre & tld & tpost & Ht & Htpre & Hfail & Hlk & Hpr).
        exists [], name, rest, tpre, tld, tpost. repeat split; try assumption.
        -- constructor.
        -- rewrite lookups_app, lookups_optional_print, Hlk. reflexivity.
        -- eexists. split.
           ++ rewrite prints_app, prints_optional_print, Hpr, app_assoc. reflexivity.
           ++ intros ->. reflexivity.
      * destruct Hr1 as (Hall & Htlds & Hlk1 & Hpr1). simpl in Htlds. subst tlds.
        unfold io_bind at 1 in Hrun. rewrite when_Print_eq in Hrun.
        cbn [console disk] in Hrun.
        destruct (IH _ _ _ _ Hrun) as (evs2 & Hw2 & Hr2).
        cbn [console disk] in Hw2. subst w'.
        eexists. split; [rewrite <- !app_assoc; reflexivity|].
        destruct res as [e|rs].
        -- destruct Hr2 as (pre & n & post & tpre & tld & tpost & -> & Hn & Ht & Hpre
                            & Htpre & Hfail & Hlk & before & Hpr & Hquiet).
           exists (name :: pre), n, post, tpre, tld, tpost. repeat split; try assumption.
           ++ constructor; [intros _; exact Hall | exact Hpre].
           ++ rewrite !lookups_app, !lookups_optional_print, Hlk1, Hlk.
              rewrite (run_domains_cons name pre _ Hname). simpl.
              now rewrite <- app_assoc.
           ++ eexists. split.
              ** rewrite !prints_app, !prints_optional_print, Hpr1, Hpr, !app_assoc.
                 reflexivity.
              ** intros Hv. rewrite Hv, (Hquiet Hv). reflexivity.
        -- destruct Hr2 as (new & -> & -> & Hlk & Hpr). eexists. split.
           { rewrite <- app_assoc. reflexivity. }
           rewrite filter_cons_True by exact Hname. repeat split.
           ++ rewrite !lookups_app, !lookups_optional_print, Hlk1, Hlk.
              rewrite (run_domains_cons name rest _ Hname). reflexivity.
           ++ rewrite !prints_app, !prints_optional_print, Hpr1, Hpr.
              destruct (Verbose opts); [|reflexivity].
              rewrite flat_map_app. cbn [flat_map]. rewrite app_nil_r.
              match goal with
              | |- _ = verbose_row _ _ ?r ++ _ =>
                  change (verbose_row GreenString RedString r)
                    with ([pad_right 12 name +:+ " "]
                            ++ map (verbose_cell GreenString RedString) (TLDList r)
                            ++ [nl])
              end.
              cbn [TLDList]. now rewrite <- !app_assoc.
Qed.

Lemma for_each_Print (f : string -> string) (l : list string) (w : World) :
  for_each l (fun t => Print (f t)) w
    = (mkWorld (console w ++ map (fun t => EvPrint (f t)) l) (disk w), inr tt).
Proof.
  revert w. induction l as [|t l IH]; intros w; simpl.
  - rewrite app_nil_r. now destruct w.
  - unfold mbind, io_mbind, io_bind. unfold Print at 1. rewrite IH.
    cbn [console disk]. now rewrite <- app_assoc.
Qed.

Lemma PrintVerboseHeader_eq (opts : Options) (w : World) :
  when (Verbose opts) (PrintVerboseHeader opts) w
    = (mkWorld
         (console w ++
            (if Verbose opts then map EvPrint (verbose_header opts) else []))
         (disk w), inr tt).
Proof.
  destruct (Verbose opts); simpl; [|rewrite app_nil_r; now destruct w].
  unfold PrintVerboseHeader, mbind, io_mbind, io_bind. unfold Print at 1 2.
  rewrite for_each_Print. unfold Print. cbn [console disk].
  unfold verbose_header. cbn [map]. rewrite map_app, map_map. cbn [map].
  now rewrite <- !app_assoc.
Qed.

Lemma prints_map_EvPrint (l : list string) : prints (map EvPrint l) = l.
Proof. induction l as [|t l IH]; [reflexivity|]. simpl. now rewrite <- IH at 2. Qed.

Lemma lookups_map_EvPrint (l : list string) : lookups (map EvPrint l) = [].
Proof. induction l as [|t l IH]; [reflexivity | exact IH]. Qed.

(** [run], with what it adds to the console. *)
Lemma run_console (opts : Options) (w w' : World) (res : error + list Result) :
  run LookupHost GreenString RedString opts w = (w', res) ->
  exists evs,
    w' = mkWorld (console w ++ evs) (disk w) /\
    match res with
    | inr rs =>
        rs = map (fun name =>
                    mkResult name (flat_map (verdict LookupHost name) (TLDsList opts)))
               (filter (fun name => name <> "") (NamesList opts)) /\
        lookups evs = run_domains (NamesList opts) (TLDsList opts) /\
        prints evs =
          (if Verbose opts
           then verbose_header opts ++ flat_map (verbose_row GreenString RedString) rs
           else [])
    | inl e =>
        exists pre name post tpre tld tpost,
          NamesList opts = pre ++ name :: post /\ name <> "" /\
          TLDsList opts = tpre ++ tld :: tpost /\
          Forall (fun n => n <> "" -> Forall (probe_ok LookupHost n) (TLDsList opts)) pre /\
          Forall (probe_ok LookupHost name) tpre /\
          probe_fails LookupHost e name tld /\
          lookups evs
            = run_domains pre (TLDsList opts)
                ++ map (fun t => name +:+ "." +:+ t) (tpre ++ [tld]) /\
          exists before,
            prints evs = before ++ [Error e +:+ nl] /\
            (Verbose opts = false -> before = [])
    end.
Proof.
  unfold run, mbind, io_mbind, io_bind. rewrite PrintVerboseHeader_eq. intros Hrun.
  destruct (run_names_console _ _ _ _ _ _ Hrun) as (evs & Hw & Hr).
  cbn [console disk] in Hw. subst w'.
  eexists. split; [rewrite <- app_assoc; reflexivity|].
  destruct res as [e|rs].
  - destruct Hr as (pre & n & post & tpre & tld & tpost & Hn & Hne & Ht & Hpre
                    & Htpre & Hfail & Hlk & before & Hpr & Hquiet).
    exists pre, n, post, tpre, tld, tpost. repeat split; try assumption.
    + rewrite lookups_app, Hlk. destruct (Verbose opts); [|reflexivity].
      now rewrite lookups_map_EvPrint.
    + eexists. split.
      * rewrite prints_app, Hpr, app_assoc. reflexivity.
      * intros Hv. rewrite Hv, (Hquiet Hv). reflexivity.
  - destruct Hr as (new & -> & -> & Hlk & Hpr). repeat split.
    + rewrite lookups_app, Hlk. destruct (Verbose opts); [|reflexivity].
      now rewrite lookups_map_EvPrint.
    + rewrite prints_app, Hpr. destruct (Verbose opts); [|reflexivity].
      now rewrite prints_map_EvPrint.
Qed.

End RunConsole.

Lemma run_domains_app (l1 l2 tlds : list string) :
  run_domains (l1 ++ l2) tlds = run_domains l1 tlds ++ run_domains l2 tlds.
Proof. unfold run_domains. now rewrite filter_app, flat_map_app. Qed.

Section RunFacts.

Variable LookupHost : string -> LookupResult.
Variable GreenString RedString : string -> string.

Lemma verdicts_of_good_probes (name : string) (tlds : list string) :
  Forall (probe_ok LookupHost name) tlds ->
  map TLDName (flat_map (verdict LookupHost name) tlds) = tlds.
Proof.
  induction 1 as [|tld tlds Htld _ IH]; [reflexivity|].
  cbn [flat_map]. rewrite map_app, IH, (verdict_ok LookupHost name tld Htld).
  reflexivity.
Qed.

(** X6. [run] leaves the disk alone and queries the resolver for the
    domains of the non-blank names only, in the order of its two loops.
    When it returns results it has queried all of them. When it returns
    an error it has stopped at the first lookup that failed: every
    query before it returned no error, the last query is the one that
    returned the error, and no later domain was queried. *)
Theorem run_queries_until_first_failure (opts : Options) (w w' : World)
    (res : error + list Result) :
  run LookupHost GreenString RedString opts w = (w', res) ->
  disk w' = disk w /\
  exists queried,
    lookups (console w') = lookups (console w) ++ queried /\
    queried `prefix_of` run_domains (NamesList opts) (TLDsList opts) /\
    match res with
    | inr _ => queried = run_domains (NamesList opts) (TLDsList opts)
    | inl e =>
        exists earlier name tld,
          queried = earlier ++ [name +:+ "." +:+ tld] /\
          name <> "" /\ name ∈ NamesList opts /\ tld ∈ TLDsList opts /\
          probe_fails LookupHost e name tld /\
          Forall (fun d => snd (isDomainNameAvailable LookupHost d) = None) earlier
    end.
Proof.
  intros Hrun. destruct (run_console _ _ _ _ _ _ _ Hrun) as (evs & -> & Hres).
  split; [reflexivity|]. exists (lookups evs). cbn [console].
  split; [apply lookups_app|]. destruct res as [e|rs].
  - destruct Hres as (pre & name & post & tpre & tld & tpost & Hn & Hne & Ht & Hpre
                      & Htpre & Hfail & Hlk & _).
    rewrite Hlk. split.
    + rewrite Hn, run_domains_app, (run_domains_cons name post _ Hne).
      apply prefix_app.
      exists (map (fun t => name +:+ "." +:+ t) tpost
                ++ run_domains post (TLDsList opts)).
      rewrite Ht at 1. rewrite !map_app. simpl. now rewrite <- !app_assoc.
    + exists (run_domains pre (TLDsList opts) ++ map (fun t => name +:+ "." +:+ t) tpre),
        name, tld.
      repeat split.
      * rewrite map_app, app_assoc. reflexivity.
      * exact Hne.
      * rewrite Hn. apply elem_of_app. right. now left.
      * rewrite Ht. apply elem_of_app. right. now left.
      * exact Hfail.
      * apply Forall_app. split.
        -- apply Forall_forall. intros d Hd. unfold run_domains in Hd.
           apply list_elem_of_In, in_flat_map in Hd as (n & Hin & Hd).
           apply list_elem_of_In, list_elem_of_filter in Hin as [Hnn Hin].
           apply in_map_iff in Hd as (t & <- & Htin).
           rewrite Forall_forall in Hpre. pose proof (Hpre n Hin Hnn) as Hok.
           rewrite Forall_forall in Hok. apply Hok. now apply list_elem_of_In.
        -- apply Forall_forall. intros d Hd.
           apply list_elem_of_In, in_map_iff in Hd as (t & <- & Htin).
           rewrite Forall_forall in Htpre. apply Htpre. now apply list_elem_of_In.
  - destruct Hres as (_ & Hlk & _). rewrite Hlk. split; reflexivity.
Qed.

(** X7. Every result [run] returns carries a non-blank name and one
    verdict per TLD, in the order of the TLD list, and a verdict says
    available exactly when the lookup of the name under that TLD failed
    with a DNS error. *)
Theorem run_results_shape (opts : Options) (w w' : World) (rs : list Result) :
  run LookupHost GreenString RedString opts w = (w', inr rs) ->
  length rs <= length (NamesList opts) /\
  Forall (fun r =>
            Name r <> "" /\
            map TLDName (TLDList r) = TLDsList opts /\
            Forall (fun t =>
                      IsAvailable t = true <->
                      exists d,
                        snd (LookupHost (Name r +:+ "." +:+ TLDName t))
                          = Some (ErrDNS d))
              (TLDList r))
    rs.
Proof.
  intros Hrun. pose proof (run_spec LookupHost GreenString RedString opts w) as Hs.
  rewrite Hrun in Hs. destruct Hs as (Hall & -> & _). split.
  - rewrite length_map. apply length_filter.
  - apply Forall_forall. intros r Hr.
    apply list_elem_of_In, in_map_iff in Hr as (name & <- & Hin).
    apply list_elem_of_In, list_elem_of_filter in Hin as [Hne Hin].
    rewrite Forall_forall in Hall. pose proof (Hall name Hin Hne) as Hok.
    cbn [Name TLDList]. split; [exact Hne|]. split.
    + now apply verdicts_of_good_probes.
    + apply Forall_forall. intros t Ht.
      apply list_elem_of_In, in_flat_map in Ht as (tld & _ & Ht).
      unfold verdict in Ht. rewrite isDomainNameAvailable_cases in Ht.
      destruct (snd (LookupHost (name +:+ "." +:+ tld))) as [[d|msg]|] eqn:E;
        simpl in Ht; try tauto; destruct Ht as [<-|[]]; simpl; rewrite E.
      * split; [intros _; now exists d | reflexivity].
      * split; [discriminate | intros [d [=]]].
Qed.

(** X8. What [run] writes to standard output. When it returns results
    it has printed nothing unless the verbose mode is on, and then the
    header and, for each returned result, its row: the name padded to
    twelve runes, one YES or NO cell per verdict, a line feed. When it
    returns an error the last thing it printed is that error and a line
    feed, after whatever the verbose mode had printed before; without
    the verbose mode this is all it printed. *)
Theorem run_console_output (opts : Options) (w w' : World) (res : error + list Result) :
  run LookupHost GreenString RedString opts w = (w', res) ->
  match res with
  | inr rs =>
      prints (console w') =
        prints (console w) ++
          (if Verbose opts
           then verbose_header opts ++ flat_map (verbose_row GreenString RedString) rs
           else [])
  | inl e =>
      exists before,
        prints (console w') = prints (console w) ++ before ++ [Error e +:+ nl] /\
        (Verbose opts = false -> before = [])
  end.
Proof.
  intros Hrun. destruct (run_console _ _ _ _ _ _ _ Hrun) as (evs & -> & Hres).
  cbn [console]. rewrite prints_app. destruct res as [e|rs].
  - destruct Hres as (pre & name & post & tpre & tld & tpost & _ & _ & _ & _ & _ & _ & _
                      & before & Hpr & Hquiet).
    exists before. now rewrite Hpr.
  - destruct Hres as (_ & _ & ->). reflexivity.
Qed.

End RunFacts.

(** Writes to the open file [path] change that file only, and leave in
    it what was there followed by a prefix of the text to write: the
    whole text when no write failed. *)
Lemma write_all_frame (path : string) (chunks : list string) :
  forall (w w' : World) (r : error + unit) (old : string),
    for_each chunks (file_Write path) w = (w', r) ->
    contents (disk w) !! path = Some old ->
    exists written rest,
      w' = with_content path (old +:+ written) w /\
      text_of chunks = written +:+ rest /\
      (r = inr tt -> rest = "").
Proof.
  induction chunks as [|c cs IH]; intros w w' r old Hrun Hold; simpl in Hrun.
  - injection Hrun as <- <-. exists "", "". simpl. rewrite append_nil_r.
    now rewrite (with_content_same _ _ _ Hold).
  - unfold mbind, io_mbind, io_bind in Hrun. unfold file_Write at 1 in Hrun.
    rewrite Hold in Hrun.
    destruct (decide (String.length (old +:+ c) <= quota (disk w))) as [Hc|Hc].
    + fold (with_content path (old +:+ c) w) in Hrun.
      destruct (IH _ _ _ (old +:+ c) Hrun (lookup_insert_eq _ _ _))
        as (written & rest & -> & Htext & Hall).
      exists (c +:+ written), rest. rewrite with_content_twice, append_assoc.
      split; [reflexivity|]. split; [|exact Hall].
      simpl. rewrite Htext. now rewrite append_assoc.
    + injection Hrun as <- <-.
      destruct (substring_rest (quota (disk w) - String.length old) c) as [rest Hrest].
      exists (substring 0 (quota (disk w) - String.length old) c), (rest +:+ text_of cs).
      split; [reflexivity|]. split; [|discriminate].
      simpl. rewrite <- append_assoc. now rewrite <- Hrest.
Qed.

(** The writes of [SpoolOutputToFile] make up the text it is to
    write. *)
Lemma text_of_spool_chunks (json_string : string -> string) (result : list Result)
    (jsonOutput : bool) :
  text_of (spool_chunks json_string result jsonOutput)
    = spool_text json_string result jsonOutput.
Proof.
  unfold spool_chunks, spool_text. destruct jsonOutput; [|reflexivity].
  simpl. apply append_nil_r.
Qed.

(** X9. What [SpoolOutputToFile] does to the disk. It touches no file
    but the output file, and leaves the permissions and the space of
    the disk as they were, whatever the outcome. When the file cannot
    be opened the world is unchanged and the error is returned.
    Otherwise the old content of the file is gone: the file holds a
    prefix of the text to write, which a write that failed may have cut
    short anywhere, and the whole text when no error is returned. *)
Theorem SpoolOutputToFile_frame (json_string : string -> string) (path : string)
    (result : list Result) (jsonOutput : bool) (w w' : World) (r : error + unit) :
  SpoolOutputToFile json_string path result jsonOutput w = (w', r) ->
  locked (disk w') = locked (disk w) /\
  quota (disk w') = quota (disk w) /\
  (forall other, other <> path ->
     contents (disk w') !! other = contents (disk w) !! other) /\
  (path ∈ locked (disk w) -> w' = w /\ exists e, r = inl e) /\
  (path ∉ locked (disk w) ->
   exists written rest,
     contents (disk w') !! path = Some written /\
     spool_text json_string result jsonOutput = written +:+ rest /\
     (r = inr tt -> rest = "")).
Proof.
  unfold SpoolOutputToFile, mbind, io_mbind, io_bind, os_Create.
  destruct (decide (path ∈ locked (disk w))) as [Hl|Hl].
  { intros [= <- <-]. do 3 (split; [reflexivity|]). split.
    - intros _. split; [reflexivity | now eexists].
    - intros Hnot. contradiction. }
  fold (with_content path "" w).
  assert (Hbody :
    (if jsonOutput
     then file_Write path (Encode json_string result)
     else for_each result (fun r =>
            for_each (TLDList r) (fun t => file_Write path (spool_line r t))))
      (with_content path "" w)
    = for_each (spool_chunks json_string result jsonOutput)
        (file_Write path) (with_content path "" w)).
  { unfold spool_chunks. destruct jsonOutput; [|apply spool_loops].
    simpl. unfold mbind, io_mbind, io_bind.
    destruct (file_Write path (Encode json_string result) (with_content path "" w))
      as [w1 [e|[]]]; reflexivity. }
  rewrite Hbody. clear Hbody. intros Hrun.
  destruct (write_all_frame path _ _ _ _ "" Hrun (lookup_insert_eq _ _ _))
    as (written & rest & -> & Htext & Hall).
  rewrite text_of_spool_chunks in Htext.
  rewrite with_content_twice. change ("" +:+ ?t) with t.
  unfold with_content. cbn [console disk contents locked quota].
  do 2 (split; [reflexivity|]).
  split; [intros other Hne; now apply lookup_insert_ne|].
  split; [intros Hin; contradiction|].
  intros _. exists written, rest. split; [apply lookup_insert_eq|]. now split.
Qed.

(** ** Reading the options *)

Lemma Split_nonempty (s : string) (sep : ascii) : Split s sep <> [].
Proof.
  destruct s as [|c rest]; simpl; [discriminate|].
  destruct (decide (c = sep)); [discriminate|].
  destruct (Split rest sep); discriminate.
Qed.

Lemma join_cons (sep s : string) (l : list string) :
  l <> [] -> join sep (s :: l) = s +:+ sep +:+ join sep l.
Proof. destruct l; [congruence | reflexivity]. Qed.

(** Joining what [Split] gives with the separator gives the string
    back. *)
Lemma join_Split (s : string) (sep : ascii) :
  join (String sep "") (Split s sep) = s.
Proof.
  induction s as [|c rest IH]; [reflexivity|]. simpl.
  destruct (decide (c = sep)) as [->|Hc].
  - rewrite join_cons by apply Split_nonempty. now rewrite IH.
  - pose proof (Split_nonempty rest sep) as Hne.
    destruct (Split rest sep) as [|first others]; [congruence|].
    destruct others as [|second others].
    + simpl in *. now rewrite IH.
    + rewrite join_cons by discriminate. rewrite join_cons in IH by discriminate.
      change (String c first +:+ ?t) with (String c (first +:+ t)). now rewrite IH.
Qed.

(** No string [Split] gives holds the separator. *)
Lemma Split_no_sep (s : string) (sep : ascii) :
  Forall (fun t => sep ∉ list_ascii_of_string t) (Split s sep).
Proof.
  induction s as [|c rest IH]; simpl.
  - repeat constructor. apply not_elem_of_nil.
  - destruct (decide (c = sep)) as [->|Hc].
    + constructor; [apply not_elem_of_nil | exact IH].
    + destruct (Split rest sep) as [|first others].
      * repeat constructor. simpl. apply not_elem_of_cons. split; [congruence|].
        apply not_elem_of_nil.
      * apply Forall_cons in IH as [Hfirst Hothers]. constructor; [|exact Hothers].
        simpl. apply not_elem_of_cons. split; [congruence | exact Hfirst].
Qed.

Lemma Split_token (t : string) (sep : ascii) :
  sep ∉ list_ascii_of_string t -> Split t sep = [t].
Proof.
  induction t as [|c t IH]; [reflexivity|]. simpl. intros Hnot.
  apply not_elem_of_cons in Hnot as [Hc Ht].
  rewrite decide_False by congruence. now rewrite (IH Ht).
Qed.

Lemma Split_token_then (t rest : string) (sep : ascii) :
  sep ∉ list_ascii_of_string t ->
  Split (t +:+ String sep rest) sep = t :: Split rest sep.
Proof.
  induction t as [|c t IH]; intros Hnot.
  - change ("" +:+ String sep rest) with (String sep rest). simpl.
    now rewrite decide_True by reflexivity.
  - simpl in Hnot. apply not_elem_of_cons in Hnot as [Hc Ht].
    change (String c t +:+ String sep rest) with (String c (t +:+ String sep rest)).
    simpl. rewrite decide_False by congruence. now rewrite (IH Ht).
Qed.

(** [Split] gives back the strings that were joined, when there is at
    least one and none holds the separator. *)
Lemma Split_join (tokens : list string) (sep : ascii) :
  tokens <> [] ->
  Forall (fun t => sep ∉ list_ascii_of_string t) tokens ->
  Split (join (String sep "") tokens) sep = tokens.
Proof.
  induction tokens as [|t tokens IH]; [congruence|]. intros _ Hall.
  apply Forall_cons in Hall as [Ht Hall].
  destruct tokens as [|t' tokens].
  - simpl. now apply Split_token.
  - rewrite join_cons by discriminate.
    change (String sep "" +:+ ?r) with (String sep r).
    rewrite (Split_token_then _ _ _ Ht). f_equal. now apply IH.
Qed.

Section ReadOptionsFacts.

Variable ScanLines : string -> list string * option error.
Variable TrimSpace : string -> string.

(** [readNamesFromFile] changes nothing in the world. *)
Lemma readNamesFromFile_world (filename : string) (w w' : World)
    (r : error + list string) :
  readNamesFromFile ScanLines TrimSpace filename w = (w', r) -> w' = w.
Proof.
  unfold readNamesFromFile, mbind, io_mbind, io_bind, os_ReadFile.
  destruct (contents (disk w) !! filename) as [data|]; [|now intros [= <- _]].
  destruct (ScanLines data) as [lines [e|]]; now intros [= <- _].
Qed.

(** X10. With [-n], [readOptions] takes the names from the command line
    and never reads the names file, whatever [-f] and the disk hold: it
    returns the same options in every world and changes nothing. The two
    lists are the comma-separated entries of [-n] and [-d]: they are
    never empty, joined with commas they give the two flags back, and
    names without a comma that were joined to form the flag are
    recovered exactly. The other options are passed on as they are. *)
Theorem readOptions_names_from_command_line (flags : Options) :
  Help flags = false ->
  Names flags <> "" ->
  exists opts,
    (forall w, readOptions ScanLines TrimSpace flags w = (w, inr (inr opts))) /\
    NamesList opts = Split (Names flags) ","%char /\
    TLDsList opts = Split (TLDs flags) ","%char /\
    NamesList opts <> [] /\ TLDsList opts <> [] /\
    join "," (NamesList opts) = Names flags /\
    join "," (TLDsList opts) = TLDs flags /\
    (forall names,
       names <> [] ->
       Forall (fun name => ","%char ∉ list_ascii_of_string name) names ->
       Names flags = join "," names ->
       NamesList opts = names) /\
    Json opts = Json flags /\ Output opts = Output flags /\
    Verbose opts = Verbose flags.
Proof.
  intros Hhelp Hnames.
  exists (with_lists flags (Split (TLDs flags) ","%char) (Split (Names flags) ","%char)).
  split.
  { intros w. unfold readOptions. rewrite Hhelp.
    now rewrite decide_False by exact Hnames. }
  cbn [with_lists NamesList TLDsList Json Output Verbose].
  repeat split; try apply Split_nonempty; try apply join_Split.
  intros names Hne Hall ->. now apply Split_join.
Qed.

(** X15. [readOptions] always returns, with an exit status or with
    options, and never writes to the disk. It exits with status 0
    exactly when asked for help, printing nothing on standard output,
    and with status 1 exactly when there is neither [-n] nor [-f],
    after the one line that no names were provided. In every other
    case it returns options, with nothing printed: the TLD list is the
    comma-separated entries of [-d] and is never empty, and names read
    from a file that was scanned without error are its lines with the
    white space around them removed, blank lines included. *)
Theorem readOptions_outcomes (flags : Options) (w : World) :
  exists w' r,
    readOptions ScanLines TrimSpace flags w = (w', inr r) /\
    disk w' = disk w /\
    match r with
    | inl code =>
        (code = 0 /\ Help flags = true /\ w' = w) \/
        (code = 1 /\ Help flags = false /\ Names flags = "" /\ FileName flags = "" /\
         console w' = console w ++ [EvPrint ("Error: No names provided" +:+ nl)])
    | inr opts =>
        w' = w /\ Help flags = false /\
        (Names flags <> "" \/ FileName flags <> "") /\
        TLDsList opts = Split (TLDs flags) ","%char /\
        TLDsList opts <> [] /\
        (Names flags = "" ->
         forall data lines,
           contents (disk w) !! FileName flags = Some data ->
           ScanLines data = (lines, None) ->
           NamesList opts = map TrimSpace lines)
    end.
Proof.
  unfold readOptions. destruct (Help flags) eqn:Hh.
  - exists w, (inl 0). split; [reflexivity|]. split; [reflexivity|]. left. auto.
  - destruct (decide (Names flags = "")) as [Hn|Hn].
    + destruct (decide (FileName flags = "")) as [Hf|Hf].
      * eexists. exists (inl 1). split; [reflexivity|]. split; [reflexivity|].
        right. auto.
      * destruct (readNamesFromFile ScanLines TrimSpace (FileName flags) w)
          as [w' [e|names]] eqn:Hread;
          pose proof (readNamesFromFile_world _ _ _ _ Hread) as ->;
          eexists; eexists; (split; [reflexivity|]); (split; [reflexivity|]);
          cbn [with_lists TLDsList NamesList];
          (split; [reflexivity|]); (split; [reflexivity|]); (split; [now right|]);
          (split; [reflexivity|]); (split; [apply Split_nonempty|]);
          intros _ data lines Hdata Hscan;
          unfold readNamesFromFile, mbind, io_mbind, io_bind, os_ReadFile in Hread;
          rewrite Hdata, Hscan in Hread; now inversion Hread.
    + eexists. eexists. split; [reflexivity|]. split; [reflexivity|].
      cbn [with_lists TLDsList NamesList].
      split; [reflexivity|]. split; [reflexivity|]. split; [now left|].
      split; [reflexivity|]. split; [apply Split_nonempty|]. intros Hno. contradiction.
Qed.

End ReadOptionsFacts.

Section NoNames.

Variable ScanLines : string -> list string * option error.
Variable TrimSpace : string -> string.
Variable LookupHost : string -> LookupResult.
Variable json_string : string -> string.

(** A run of [main] that has ended without any pair to probe. *)
Lemma ended_run_without_pairs (opts : Options) (fs : FS) (s : State) :
  main_pairs opts = [] ->
  Reachable LookupHost json_string opts fs s ->
  exited s <> None ->
  probed s = [] /\ received s = [] /\
  (Json opts = false -> presented s = [] /\ exited s = Some 0) /\
  (Json opts = true -> Output opts = "" ->
   presented s = ["null" +:+ nl] /\ exited s = Some 0).
Proof.
  intros Hpairs Hr Hex. pose proof (Inv_reachable _ _ _ _ _ Hr) as HI.
  destruct (Inv_exited_complete _ _ _ _ s HI Hex) as [Hrec Hpr].
  rewrite Hpairs in Hrec, Hpr. simpl in Hrec, Hpr.
  apply Permutation_nil_r in Hrec, Hpr.
  split; [exact Hpr|]. split; [exact Hrec|]. split.
  - intros HJ. destruct (inv_text _ _ _ _ s HI HJ) as (Hp & _ & [H0|H0]);
      [congruence|]. split; [now rewrite Hp, Hrec | exact H0].
  - intros HJ Ho. pose proof (inv_json_exited _ _ _ _ s HI HJ Hex) as Hfin.
    unfold json_final in Hfin. rewrite decide_True in Hfin by exact Ho.
    rewrite (inv_json _ _ _ _ s HI HJ), Hrec in Hfin.
    destruct Hfin as (Hp & _ & H0). now split.
Qed.

(** X11. A names file that cannot be read does not stop the program:
    [readOptions] drops the error of [readNamesFromFile], prints
    nothing and returns options with no name. A run of [main] on them
    then makes no query; in text mode it prints nothing, in JSON mode
    with no output file it prints the document [null], and in both
    cases it ends with status 0. *)
Theorem unreadable_names_file_is_ignored (flags : Options) (w w1 : World) (e : error) :
  Help flags = false ->
  Names flags = "" ->
  FileName flags <> "" ->
  readNamesFromFile ScanLines TrimSpace (FileName flags) w = (w1, inl e) ->
  exists opts,
    readOptions ScanLines TrimSpace flags w = (w, inr (inr opts)) /\
    NamesList opts = [] /\
    forall fs s,
      Reachable LookupHost json_string opts fs s ->
      exited s <> None ->
      probed s = [] /\
      (Json flags = false -> presented s = [] /\ exited s = Some 0) /\
      (Json flags = true -> Output flags = "" ->
       presented s = ["null" +:+ nl] /\ exited s = Some 0).
Proof.
  intros Hhelp Hnames Hfile Hread.
  pose proof (readNamesFromFile_world _ _ _ _ _ _ Hread) as ->.
  exists (with_lists flags (Split (TLDs flags) ","%char) []).
  split; [|split; [reflexivity|]].
  { unfold readOptions. rewrite Hhelp, decide_True by exact Hnames.
    rewrite decide_False by exact Hfile. now rewrite Hread. }
  intros fs s Hr Hex.
  assert (Hpairs : main_pairs (with_lists flags (Split (TLDs flags) ","%char) []) = [])
    by reflexivity.
  destruct (ended_run_without_pairs _ fs s Hpairs Hr Hex) as (Hpr & _ & Htext & Hjson).
  cbn [with_lists Json Output] in Htext, Hjson.
  split; [exact Hpr|]. split; [exact Htext | exact Hjson].
Qed.

End NoNames.

(** ** The first revision *)

(** A loop whose body always succeeds and only adds events to the
    console adds the events of all its rounds. *)
Lemma for_each_appends {A} (l : list A) (body : A -> io unit) (evs_of : A -> list event) :
  (forall a w, body a w = (mkWorld (console w ++ evs_of a) (disk w), inr tt)) ->
  forall w, for_each l body w = (mkWorld (console w ++ flat_map evs_of l) (disk w), inr tt).
Proof.
  intros Hbody. induction l as [|a l IH]; intros w; simpl.
  - rewrite app_nil_r. now destruct w.
  - unfold mbind, io_mbind, io_bind. rewrite Hbody, IH. cbn [console disk].
    now rewrite <- app_assoc.
Qed.

Section FirstRevision.

Variable LookupHost : string -> LookupResult.
Variable RedString : string -> string.

Lemma check_events (name tld : string) (w : World) :
  MainGo.check LookupHost RedString name tld w
    = (mkWorld
         (console w ++
            EvLookup (name +:+ "." +:+ tld)
              :: map EvPrint (MainGo.report LookupHost RedString name tld))
         (disk w), inr tt).
Proof.
  unfold MainGo.check, MainGo.report, io_bind, Lookup, mbind, io_mbind, io_bind,
    mret, io_mret, io_ret.
  destruct (isDomainNameAvailable LookupHost (name +:+ "." +:+ tld)) as [dn [e|]];
    cbn [fst snd]; unfold Print; destruct dn;
    cbn [console disk map app]; rewrite <- ?app_assoc; cbn [app]; reflexivity.
Qed.

Lemma run_go_events (opts : Options) (w : World) :
  MainGo.run LookupHost RedString opts w
    = (mkWorld
         (console w ++
            flat_map (fun name =>
                        flat_map (fun tld =>
                                    EvLookup (name +:+ "." +:+ tld)
                                      :: map EvPrint
                                           (MainGo.report LookupHost RedString name tld))
                          (TLDsList opts))
              (filter (fun name => name <> "") (NamesList opts)))
         (disk w), inr tt).
Proof.
  unfold MainGo.run.
  rewrite (for_each_appends _ _
             (fun name =>
                if decide (name = "") then []
                else flat_map (fun tld =>
                                 EvLookup (name +:+ "." +:+ tld)
                                   :: map EvPrint
                                        (MainGo.report LookupHost RedString name tld))
                       (TLDsList opts))).
  - f_equal. f_equal. f_equal.
    induction (NamesList opts) as [|name names IH]; [reflexivity|].
    cbn [flat_map]. destruct (decide (name = "")) as [Hb|Hn].
    + rewrite filter_cons_False by tauto. exact IH.
    + rewrite filter_cons_True by exact Hn. cbn [flat_map]. now rewrite IH.
  - intros name w0. destruct (decide (name = "")).
    + simpl. rewrite app_nil_r. now destruct w0.
    + apply for_each_appends. intros tld w1. apply check_events.
Qed.

Lemma lookups_of_reports (name : string) (tlds : list string) :
  lookups (flat_map (fun tld =>
                       EvLookup (name +:+ "." +:+ tld)
                         :: map EvPrint (MainGo.report LookupHost RedString name tld))
             tlds)
    = map (fun tld => name +:+ "." +:+ tld) tlds.
Proof.
  induction tlds as [|tld tlds IHt]; [reflexivity|].
  cbn [flat_map map app]. rewrite lookups_cons_lookup, lookups_app, IHt.
  now rewrite lookups_map_EvPrint.
Qed.

Lemma prints_of_reports (name : string) (tlds : list string) :
  prints (flat_map (fun tld =>
                      EvLookup (name +:+ "." +:+ tld)
                        :: map EvPrint (MainGo.report LookupHost RedString name tld))
            tlds)
    = flat_map (MainGo.report LookupHost RedString name) tlds.
Proof.
  induction tlds as [|tld tlds IHt]; [reflexivity|].
  cbn [flat_map map app]. rewrite prints_cons_lookup, prints_app, IHt.
  now rewrite prints_map_EvPrint.
Qed.

Lemma lookups_of_run_go (names tlds : list string) :
  lookups (flat_map (fun name =>
                       flat_map (fun tld =>
                                   EvLookup (name +:+ "." +:+ tld)
                                     :: map EvPrint
                                          (MainGo.report LookupHost RedString name tld))
                         tlds)
             (filter (fun name => name <> "") names))
    = run_domains names tlds.
Proof.
  unfold run_domains.
  induction (filter _ names) as [|name rest IH]; [reflexivity|].
  cbn [flat_map]. now rewrite lookups_app, IH, lookups_of_reports.
Qed.

(** X12. The first revision's [run] never stops early: it leaves the
    disk alone, queries every domain of the non-blank names, failed
    lookups or not, and prints the report of each pair in turn. The
    report of a pair always ends with its verdict line, so a lookup
    that fails with an error that is no DNS error is reported as not
    available, after the error itself. *)
Theorem first_revision_run_reports_every_pair (opts : Options) (w : World) :
  exists w',
    MainGo.run LookupHost RedString opts w = (w', inr tt) /\
    disk w' = disk w /\
    lookups (console w') = lookups (console w)
                             ++ run_domains (NamesList opts) (TLDsList opts) /\
    prints (console w') =
      prints (console w) ++
        flat_map (fun name =>
                    flat_map (MainGo.report LookupHost RedString name) (TLDsList opts))
          (filter (fun name => name <> "") (NamesList opts)) /\
    (forall name tld e,
       probe_fails LookupHost e name tld ->
       MainGo.report LookupHost RedString name tld =
         [Error e +:+ nl;
          name +:+ "." +:+ tld +:+ " is " +:+ RedString "NOT" +:+ " available" +:+ nl]) /\
    (forall name tld,
       probe_ok LookupHost name tld ->
       length (MainGo.report LookupHost RedString name tld) = 1).
Proof.
  eexists. split; [apply run_go_events|]. cbn [console disk].
  split; [reflexivity|]. rewrite lookups_app, prints_app. unfold run_domains.
  split; [|split; [|split]].
  - f_equal. apply lookups_of_run_go.
  - f_equal. induction (filter _ (NamesList opts)) as [|name names IH]; [reflexivity|].
    cbn [flat_map]. now rewrite prints_app, IH, prints_of_reports.
  - intros name tld e Hfail. unfold MainGo.report. unfold probe_fails in Hfail.
    rewrite isDomainNameAvailable_cases in *.
    destruct (snd (LookupHost (name +:+ "." +:+ tld))) as [[d|msg]|];
      simpl in Hfail; try discriminate. injection Hfail as <-. reflexivity.
  - intros name tld Hok. unfold MainGo.report. unfold probe_ok in Hok.
    destruct (isDomainNameAvailable LookupHost (name +:+ "." +:+ tld)) as [dn err].
    simpl in Hok. subst err. reflexivity.
Qed.

Variable ToLower : string -> string.

(** X13. The first revision as a whole. Asked for help, or given no
    names file, it exits with status 0 without a query and with nothing
    on standard output. When the names
    file cannot be read it prints the error and exits with status 1,
    without any query. Otherwise it queries, for each non-empty line of
    the file taken in lower case and each comma-separated entry of the
    TLD flag, the domain of the pair, in this order, and then exits
    with status 0: the empty line after a final line feed is no name. *)
Theorem first_revision_program (flags : Options) (w : World) :
  (Help flags = true \/ FileName flags = "" ->
   MainGo.main LookupHost RedString ToLower flags w = (w, inr 0)) /\
  (Help flags = false -> FileName flags <> "" ->
   match contents (disk w) !! FileName flags with
   | None =>
       exists e,
         MainGo.main LookupHost RedString ToLower flags w
           = (mkWorld (console w ++ [EvPrint (Error e +:+ nl)]) (disk w), inr 1)
   | Some d =>
       exists w',
         MainGo.main LookupHost RedString ToLower flags w = (w', inr 0) /\
         disk w' = disk w /\
         lookups (console w') =
           lookups (console w) ++
             run_domains (Split (ToLower d) (ascii_of_nat 10))
               (Split (TLDs flags) ","%char)
   end).
Proof.
  unfold MainGo.main, MainGo.readOptions, MainGo.readNamesFromFile, os_ReadFile,
    mbind, io_mbind, io_bind, mret, io_mret, io_ret.
  split.
  - intros [Hh|Hf].
    + now rewrite Hh.
    + rewrite (bool_decide_eq_true_2 _ Hf), orb_true_r. reflexivity.
  - intros Hh Hf. rewrite Hh, (bool_decide_eq_false_2 _ Hf). cbn [orb].
    destruct (contents (disk w) !! FileName flags) as [d|].
    + rewrite run_go_events. eexists. split; [reflexivity|]. cbn [console disk].
      split; [reflexivity|]. rewrite lookups_app. f_equal.
      cbn [with_lists NamesList TLDsList]. apply lookups_of_run_go.
    + eexists. unfold Print. reflexivity.
Qed.

End FirstRevision.

Section MainFiles.

Variable LookupHost : string -> LookupResult.
Variable json_string : string -> string.

(** X14. What a run of [main] does to the disk. In text mode the [-o]
    option is ignored: the disk is never touched, as in JSON mode
    without [-o] and in any run that has not ended. A run never touches
    a file other than the output file. The program exits with status 0
    or 1, and with 1 only in JSON mode with [-o], after the one message
    that the data could not be written: the output file is then as it
    was, or it was created and holds a prefix of the document, which
    the failed write may have cut short anywhere. When such a run exits
    with status 0 the output file holds the document of the results
    received, and nothing was printed. *)
Theorem main_writes_only_the_json_output_file (opts : Options) (fs : FS) (s : State) :
  Reachable LookupHost json_string opts fs s ->
  (Json opts = false \/ Output opts = "" \/ exited s = None -> files s = fs) /\
  locked (files s) = locked fs /\
  quota (files s) = quota fs /\
  (forall other, other <> Output opts ->
     contents (files s) !! other = contents fs !! other) /\
  (forall code, exited s = Some code ->
     code = 0 \/
     (code = 1 /\ Json opts = true /\ Output opts <> "" /\
      (exists err,
         presented s = ["Error writing JSON data to file " +:+ Output opts
                          +:+ ": " +:+ Error err]) /\
      (contents (files s) !! Output opts = contents fs !! Output opts \/
       exists written rest,
         contents (files s) !! Output opts = Some written /\
         MarshalIndent json_string (received s) = written +:+ rest))) /\
  (Json opts = true -> Output opts <> "" -> exited s = Some 0 ->
   contents (files s) !! Output opts
     = Some (MarshalIndent json_string (received s)) /\
   presented s = []).
Proof.
  intros Hr. pose proof (Inv_reachable _ _ _ _ _ Hr) as HI.
  destruct (Json opts) eqn:HJ.
  - destruct (exited s) as [code|] eqn:Hex.
    + pose proof (inv_json_exited _ _ _ _ s HI HJ ltac:(congruence)) as HF.
      pose proof (inv_json _ _ _ _ s HI HJ) as Hrec.
      unfold json_final in HF. rewrite Hrec in HF.
      destruct (decide (Output opts = "")) as [Ho|Ho].
      * destruct HF as (Hp & Hf & He). rewrite Hf.
        refine (conj _ (conj _ (conj _ (conj _ (conj _ _))))); auto.
        -- intros c [= <-]. left. congruence.
        -- intros _ Hno. contradiction.
      * destruct (os_WriteFile (Output opts) (MarshalIndent json_string (received s))
                    (start fs)) as [w [err|u]] eqn:Hw;
          destruct HF as (Hp & Hf & He);
          destruct (os_WriteFile_frame _ _ _ _ _ Hw) as (_ & Hl & Hq & Hothers & Hfile);
          rewrite Hf; cbn [start disk] in *;
          refine (conj _ (conj _ (conj _ (conj _ (conj _ _))))); auto;
          try (intros [?|[?|?]]; congruence).
        -- intros c [= <-]. right. rewrite Hex in He. injection He as ->.
           refine (conj _ (conj _ (conj _ (conj _ _)))); auto; [now exists err|].
           destruct Hfile as [[_ ->]|Hpart]; [left; reflexivity | right; exact Hpart].
        -- congruence.
        -- intros c [= <-]. left. congruence.
    + destruct (inv_json_running _ _ _ _ s HI HJ Hex) as [Hp Hf]. rewrite Hf.
      refine (conj _ (conj _ (conj _ (conj _ (conj _ _))))); auto; discriminate.
  - destruct (inv_text _ _ _ _ s HI HJ) as (Hp & Hf & Hexit). rewrite Hf.
    refine (conj _ (conj _ (conj _ (conj _ (conj _ _))))); auto; try discriminate.
    intros c Hc. left. destruct Hexit; congruence.
Qed.

End MainFiles.

Section SecondRevision.

Variable LookupHost : string -> LookupResult.
Variable GreenString RedString : string -> string.
Variable json_string : string -> string.

(** The second revision's [SpoolOutputToFile] touches the one file
    only: it holds the whole text when no error is returned, and else
    the file could not be opened, or it holds a prefix of the text. *)
Lemma spool_indent_frame (path : string) (results : list Result) (jsonOutput : bool)
    (w w' : World) (r : error + unit) :
  Part002.SpoolOutputToFile json_string path results jsonOutput w = (w', r) ->
  console w' = console w /\
  locked (disk w') = locked (disk w) /\
  quota (disk w') = quota (disk w) /\
  (forall other, other <> path ->
     contents (disk w') !! other = contents (disk w) !! other) /\
  match r with
  | inr _ =>
      contents (disk w') !! path
        = Some (Part002.spool_text json_string results jsonOutput)
  | inl _ =>
      (path ∈ locked (disk w) /\ w' = w) \/
      exists written rest,
        contents (disk w') !! path = Some written /\
        Part002.spool_text json_string results jsonOutput = written +:+ rest
  end.
Proof.
  unfold Part002.SpoolOutputToFile, mbind, io_mbind, io_bind, os_Create.
  destruct (decide (path ∈ locked (disk w))) as [Hl|Hl].
  { intros [= <- <-]. do 4 (split; [reflexivity|]). left. now split. }
  fold (with_content path "" w).
  assert (Hbody :
    (if jsonOutput
     then file_Write path (Part002.MarshalIndent json_string results)
     else for_each results (fun result =>
            for_each (TLDList result) (fun tld => file_Write path (spool_line result tld))))
      (with_content path "" w)
    = for_each (Part002.spool_chunks json_string results jsonOutput)
        (file_Write path) (with_content path "" w)).
  { unfold Part002.spool_chunks. destruct jsonOutput; [|apply spool_loops].
    simpl. unfold mbind, io_mbind, io_bind.
    destruct (file_Write path (Part002.MarshalIndent json_string results)
                (with_content path "" w))
      as [w1 [e|[]]]; reflexivity. }
  rewrite Hbody. clear Hbody. intros Hrun.
  assert (Htext : text_of (Part002.spool_chunks json_string results jsonOutput)
                  = Part002.spool_text json_string results jsonOutput).
  { unfold Part002.spool_chunks, Part002.spool_text. destruct jsonOutput; [|reflexivity].
    simpl. apply append_nil_r. }
  destruct (write_all_frame path _ _ _ _ "" Hrun (lookup_insert_eq _ _ _))
    as (written & rest & -> & Hwritten & Hall).
  rewrite Htext in Hwritten.
  rewrite with_content_twice. change ("" +:+ ?t) with t.
  unfold with_content. cbn [console disk contents locked quota].
  do 3 (split; [reflexivity|]).
  split; [intros other Hne; now apply lookup_insert_ne|].
  destruct r as [e|[]].
  - right. exists written, rest. split; [apply lookup_insert_eq | exact Hwritten].
  - rewrite Hwritten, (Hall eq_refl), append_nil_r. apply lookup_insert_eq.
Qed.

(** X16. The second revision, when a lookup fails with an error that
    is no DNS error: [run] prints the error and returns it, and [main]
    prints it a second time and exits with status 1. The disk is left
    alone: the output file is not even created. *)
Theorem second_revision_failure_is_printed_twice (opts : Options) (w w1 : World)
    (e : error) :
  run LookupHost GreenString RedString opts w = (w1, inl e) ->
  exists w',
    Part002.main LookupHost GreenString RedString json_string opts w = (w', inr 1) /\
    disk w' = disk w /\
    (exists name tld,
       name <> "" /\ name ∈ NamesList opts /\ tld ∈ TLDsList opts /\
       probe_fails LookupHost e name tld) /\
    exists before,
      prints (console w') =
        prints (console w) ++ before ++ [Error e +:+ nl; Error e +:+ nl] /\
      (Verbose opts = false -> before = []).
Proof.
  intros Hrun. unfold Part002.main. rewrite Hrun.
  destruct (run_console _ _ _ _ _ _ _ Hrun)
    as (evs & -> & pre & name & post & tpre & tld & tpost & Hn & Hne & Ht & _ & _ & Hf
        & _ & before & Hp & Hq).
  eexists. split; [reflexivity|]. cbn [console disk]. split; [reflexivity|]. split.
  - exists name, tld. split; [exact Hne|]. rewrite Hn, Ht.
    split; [|split; [|exact Hf]]; set_solver.
  - exists before. split; [|exact Hq].
    rewrite !prints_app, Hp, <- !app_assoc. reflexivity.
Qed.

(** X17. The second revision, when [run] returns results. Every
    domain of the non-blank names was queried. Without [-o] the program
    exits with status 0 and the disk is left alone; without [-v] as
    well it has printed nothing at all, so the verdicts are shown
    nowhere. With [-o] no file but the output file is touched; the
    program exits with status 0 exactly when the file was written, and
    it then holds one line per verdict, or with [-j] the indented JSON
    document of the results under this revision's field names; else it
    prints the error of the file system and exits with status 1. *)
Theorem second_revision_spools_the_results (opts : Options) (w w1 : World)
    (rs : list Result) :
  run LookupHost GreenString RedString opts w = (w1, inr rs) ->
  exists w' code,
    Part002.main LookupHost GreenString RedString json_string opts w = (w', inr code) /\
    lookups (console w') =
      lookups (console w) ++ run_domains (NamesList opts) (TLDsList opts) /\
    (Output opts = "" ->
     code = 0 /\ w' = w1 /\ disk w' = disk w /\
     (Verbose opts = false -> prints (console w') = prints (console w))) /\
    (Output opts <> "" ->
     (forall other, other <> Output opts ->
        contents (disk w') !! other = contents (disk w) !! other) /\
     ((code = 0 /\ console w' = console w1 /\
       contents (disk w') !! Output opts
         = Some (Part002.spool_text json_string rs (Json opts))) \/
      (code = 1 /\
       exists err, console w' = console w1 ++ [EvPrint (Error err +:+ nl)]))).
Proof.
  intros Hrun. unfold Part002.main. rewrite Hrun.
  destruct (run_console _ _ _ _ _ _ _ Hrun) as (evs & -> & _ & Hl & Hp).
  destruct (decide (Output opts = "")) as [Ho|Ho].
  - exists (mkWorld (console w ++ evs) (disk w)), 0. split; [reflexivity|].
    cbn [console disk]. split; [now rewrite lookups_app, Hl|].
    split; [|intros Hno; contradiction].
    intros _. do 3 (split; [reflexivity|]).
    intros Hv. rewrite Hv in Hp. rewrite prints_app, Hp. apply app_nil_r.
  - destruct (Part002.SpoolOutputToFile json_string (Output opts) rs (Json opts)
                (mkWorld (console w ++ evs) (disk w))) as [w2 [err|u]] eqn:Hspool;
      destruct (spool_indent_frame _ _ _ _ _ _ Hspool) as (Hc & _ & _ & Hothers & Hfile);
      cbn [console disk] in *.
    + eexists. exists 1. split; [reflexivity|]. cbn [console disk].
      split; [now rewrite lookups_app, Hc, lookups_app, Hl, app_nil_r|].
      split; [intros Hno; contradiction|]. intros _. split; [exact Hothers|].
      right. split; [reflexivity|]. exists err. now rewrite Hc.
    + exists w2, 0. split; [reflexivity|].
      split; [now rewrite Hc, lookups_app, Hl|].
      split; [intros Hno; contradiction|]. intros _. split; [exact Hothers|].
      left. auto.
Qed.

End SecondRevision.

(** * Further concrete runs *)


(** X2 at one name under two TLDs, after the first probe has sent its
    result: the second probe, which has not started, can make its
    query, the channel is open and the counter is positive. *)
Lemma a_pending_probe_can_step :
  exists s,
    exec plain_quote (options_for false ["a"] ["com"; "net"]) [RunProbe 0; RunProbe 0]
      (init registered_resolver (options_for false ["a"] ["com"; "net"]) empty_disk)
      = Some s /\
    closed s = false /\ 0 < wg s /\
    exists s', step plain_quote (options_for false ["a"] ["com"; "net"]) (RunProbe 1) s
               = Some s'.
Proof.
  eexists. split; [vm_compute; reflexivity|].
  match goal with
  | |- closed ?s = _ /\ _ =>
      apply (main_never_panics registered_resolver plain_quote
               (options_for false ["a"] ["com"; "net"]) empty_disk s 1
               (EvLookup "a.net")
               [EvSend (mkResult "a" [mkTLD "net" false]); EvDone])
  end.
  - exists [RunProbe 0; RunProbe 0]. vm_compute; reflexivity.
  - reflexivity.
  - reflexivity.
Defined.

(** X3 at one name and no TLD, in JSON mode: the run that closes the
    channel and ends [main] has made no query and printed [null]. *)
Lemma json_run_without_tlds :
  exists s,
    exec plain_quote (options_for true ["a"] []) [RunCloser; RunMain]
      (init registered_resolver (options_for true ["a"] []) empty_disk)
      = Some s /\
    probed s = [] /\ presented s = ["null" +:+ nl] /\ exited s = Some 0.
Proof.
  eexists. split; [vm_compute; reflexivity|].
  match goal with
  | |- probed ?s = _ /\ _ =>
      destruct (main_on_empty_input registered_resolver plain_quote
                  (options_for true ["a"] []) empty_disk s)
        as (Hp & _ & _ & Hjson)
  end.
  - right. reflexivity.
  - exists [RunCloser; RunMain]. vm_compute; reflexivity.
  - vm_compute; discriminate.
  - split; [exact Hp|]. apply Hjson; reflexivity.
Defined.

(** X4 at two names under one TLD, after the second probe has made its
    query and sent its result: what it has done and its pending [Done]
    make up the program of [checkDomains] for the second pair. *)
Lemma second_probe_in_program_order :
  exists s,
    exec plain_quote (options_for false ["a"; "b"] ["com"]) [RunProbe 1; RunProbe 1]
      (init registered_resolver (options_for false ["a"; "b"] ["com"]) empty_disk)
      = Some s /\
    events_of 1 (trace s)
      = [EvLookup "b.com"; EvSend (mkResult "b" [mkTLD "com" false])] /\
    exists rem,
      goroutines s !! 1 = Some rem /\
      events_of 1 (trace s) ++ rem = checkDomains registered_resolver "b" ["com"].
Proof.
  eexists. split; [vm_compute; reflexivity|]. split; [reflexivity|].
  match goal with
  | |- exists rem, goroutines ?s !! _ = _ /\ _ =>
      apply (goroutine_events_in_program_order registered_resolver plain_quote
               (options_for false ["a"; "b"] ["com"]) empty_disk s 1 "b" "com")
  end.
  - exists [RunProbe 1; RunProbe 1]. vm_compute; reflexivity.
  - reflexivity.
Defined.

(** X5 at two names under one TLD, the lookup of the first failing:
    one diagnostic and one line, for two pairs. *)
Lemma one_line_and_one_diagnostic :
  exists s,
    exec plain_quote (options_for false ["a"; "b"] ["com"])
      (repeat (RunProbe 0) 4 ++ one_by_one [1] 3)
      (init (failing_resolver "a.com") (options_for false ["a"; "b"] ["com"]) empty_disk)
      = Some s /\
    presented s = ["b.com is not available" +:+ nl] /\
    length (presented s) + length (prints (probe_events (trace s))) = 2.
Proof.
  eexists. split; [vm_compute; reflexivity|]. split; [reflexivity|].
  match goal with
  | |- length (presented ?s) + _ = _ =>
      destruct (console_accounts_for_every_pair (failing_resolver "a.com") plain_quote
                  (options_for false ["a"; "b"] ["com"]) empty_disk s)
        as (_ & Htext)
  end.
  - exists (repeat (RunProbe 0) 4 ++ one_by_one [1] 3). vm_compute; reflexivity.
  - vm_compute; discriminate.
  - apply Htext. reflexivity.
Defined.

(** X6 at one name under three TLDs, the second lookup failing: [run]
    has queried a prefix of the three domains and left the disk alone. *)
Lemma run_stops_within_the_domains :
  exists w' e,
    run (failing_resolver "a.net") no_color no_color
      (options_for false ["a"] ["com"; "net"; "org"]) (start empty_disk) = (w', inl e) /\
    lookups (console w') = ["a.com"; "a.net"] /\
    disk w' = empty_disk.
Proof.
  eexists. eexists. split; [vm_compute; reflexivity|]. split; [reflexivity|].
  match goal with
  | |- disk ?w' = _ =>
      apply (run_queries_until_first_failure (failing_resolver "a.net") no_color no_color
               (options_for false ["a"] ["com"; "net"; "org"]) (start empty_disk) w'
               (inl (ErrOther "resolver failure")))
  end.
  vm_compute; reflexivity.
Defined.

(** X7 at the names [a], blank and [b] under two TLDs, all registered:
    the results carry non-blank names and the two TLDs in order. *)
Lemma results_of_a_blank_and_b :
  exists w' rs,
    run registered_resolver no_color no_color
      (options_for false ["a"; ""; "b"] ["com"; "net"]) (start empty_disk) = (w', inr rs) /\
    length rs <= 3 /\
    Forall (fun r =>
              Name r <> "" /\
              map TLDName (TLDList r) = ["com"; "net"] /\
              Forall (fun t =>
                        IsAvailable t = true <->
                        exists d,
                          snd (registered_resolver (Name r +:+ "." +:+ TLDName t))
                            = Some (ErrDNS d))
                (TLDList r))
      rs.
Proof.
  eexists. eexists. split; [vm_compute; reflexivity|].
  match goal with
  | |- length ?rs <= _ /\ _ =>
      eapply (run_results_shape registered_resolver no_color no_color
               (options_for false ["a"; ""; "b"] ["com"; "net"]) (start empty_disk) _ rs)
  end.
  vm_compute; reflexivity.
Defined.

(** X8 at one registered name in verbose mode: the header, then the
    row of the one result. *)
Lemma verbose_run_of_one_name :
  exists w' rs,
    run registered_resolver no_color no_color
      (mkOptions "" "a" "com" "" true false false ["com"] ["a"]) (start empty_disk)
      = (w', inr rs) /\
    prints (console w') =
      prints (console (start empty_disk)) ++
        verbose_header (mkOptions "" "a" "com" "" true false false ["com"] ["a"])
          ++ flat_map (verbose_row no_color no_color) rs.
Proof.
  eexists. eexists. split; [vm_compute; reflexivity|].
  match goal with
  | |- prints (console ?w') = _ ++ _ ++ flat_map _ ?rs =>
      apply (run_console_output registered_resolver no_color no_color
               (mkOptions "" "a" "com" "" true false false ["com"] ["a"])
               (start empty_disk) w' (inr rs))
  end.
  vm_compute; reflexivity.
Defined.

(** X9 at one result written as JSON to a new file: the rest of the
    disk is as before, and the file holds the document. *)
Lemma spool_json_to_a_new_file :
  exists w',
    SpoolOutputToFile plain_quote "results.json" [mkResult "a" [mkTLD "com" true]] true
      (start empty_disk) = (w', inr tt) /\
    contents (disk w') !! "results.json"
      = Some (Encode plain_quote [mkResult "a" [mkTLD "com" true]]) /\
    forall other, other <> "results.json" ->
      contents (disk w') !! other = contents (disk (start empty_disk)) !! other.
Proof.
  eexists. split; [vm_compute; reflexivity|].
  match goal with
  | |- contents (disk ?w') !! _ = _ /\ _ =>
      destruct (SpoolOutputToFile_frame plain_quote "results.json"
                  [mkResult "a" [mkTLD "com" true]] true (start empty_disk) w' (inr tt))
        as (_ & _ & Hothers & _ & Hfile)
  end.
  - vm_compute; reflexivity.
  - split; [|exact Hothers].
    destruct Hfile as (written & rest & Hheld & Htext & Hall); [vm_compute; set_solver|].
    rewrite (Hall eq_refl), append_nil_r in Htext.
    rewrite Hheld, <- Htext. reflexivity.
Defined.

(** X10 at [-n a,b -d com,net -f names.txt]: the names are [a] and
    [b], and the file is not read. *)
Lemma names_a_b_from_the_command_line :
  exists opts,
    (forall w,
       readOptions scan_one_line trim_nothing
         (flags_for false "names.txt" "a,b" "com,net") w = (w, inr (inr opts))) /\
    NamesList opts = ["a"; "b"] /\
    TLDsList opts = ["com"; "net"].
Proof.
  destruct (readOptions_names_from_command_line scan_one_line trim_nothing
              (flags_for false "names.txt" "a,b" "com,net"))
    as (opts & Hread & Hnames & Htlds & _).
  - reflexivity.
  - discriminate.
  - exists opts. split; [exact Hread|]. split; [exact Hnames | exact Htlds].
Defined.

(** X11 at [-f names.txt -j] on a disk without that file: the options
    carry no name, and the run of [main] prints [null]. *)
Lemma missing_names_file_gives_null :
  exists opts,
    readOptions scan_one_line trim_nothing (flags_for true "names.txt" "" "com")
      (start empty_disk) = (start empty_disk, inr (inr opts)) /\
    NamesList opts = [] /\
    forall fs s,
      Reachable registered_resolver plain_quote opts fs s ->
      exited s <> None ->
      probed s = [] /\
      (Json (flags_for true "names.txt" "" "com") = false ->
       presented s = [] /\ exited s = Some 0) /\
      (Json (flags_for true "names.txt" "" "com") = true ->
       Output (flags_for true "names.txt" "" "com") = "" ->
       presented s = ["null" +:+ nl] /\ exited s = Some 0).
Proof.
  apply (unreadable_names_file_is_ignored scan_one_line trim_nothing registered_resolver
           plain_quote (flags_for true "names.txt" "" "com") (start empty_disk)
           (start empty_disk)
           (ErrOther "open names.txt: no such file or directory")).
  - reflexivity.
  - reflexivity.
  - discriminate.
  - vm_compute; reflexivity.
Defined.

(** X13 at a names file of two lines, the first with capitals, under
    two TLDs: four queries, in lower case and in order, and status 0. *)
Lemma first_revision_on_two_lines :
  exists w',
    MainGo.main registered_resolver no_color ToLower_ascii
      (flags_for false "names.txt" "" "com,net")
      (start (disk_with "names.txt" ("Ab" +:+ nl +:+ "c" +:+ nl)))
      = (w', inr 0) /\
    lookups (console w') = ["ab.com"; "ab.net"; "c.com"; "c.net"].
Proof.
  destruct (first_revision_program registered_resolver no_color ToLower_ascii
              (flags_for false "names.txt" "" "com,net")
              (start (disk_with "names.txt" ("Ab" +:+ nl +:+ "c" +:+ nl))))
    as [_ Hrun].
  specialize (Hrun eq_refl ltac:(discriminate)).
  change (contents (disk (start (disk_with "names.txt" ("Ab" +:+ nl +:+ "c" +:+ nl))))
            !! FileName (flags_for false "names.txt" "" "com,net"))
    with (Some ("Ab" +:+ nl +:+ "c" +:+ nl)) in Hrun.
  destruct Hrun as (w' & Hmain & _ & Hlookups).
  exists w'. split; [exact Hmain|]. rewrite Hlookups. vm_compute; reflexivity.
Defined.


(** X14 at one registered name with [-j -o out.json] on an empty disk:
    the run ends with status 0, the file holds the document and nothing
    was printed. *)
Lemma json_run_writes_the_output_file :
  exists s,
    exec plain_quote (mkOptions "" "a" "com" "out.json" false true false ["com"] ["a"])
      (one_by_one [0] 3)
      (init registered_resolver
         (mkOptions "" "a" "com" "out.json" false true false ["com"] ["a"]) empty_disk)
      = Some s /\
    exited s = Some 0 /\
    contents (files s) !! "out.json" = Some (MarshalIndent plain_quote (received s)) /\
    presented s = [] /\
    forall other, other <> "out.json" -> contents (files s) !! other = None.
Proof.
  eexists. split; [vm_compute; reflexivity|]. split; [reflexivity|].
  match goal with
  | |- contents (files ?s) !! _ = _ /\ _ =>
      destruct (main_writes_only_the_json_output_file registered_resolver plain_quote
                  (mkOptions "" "a" "com" "out.json" false true false ["com"] ["a"])
                  empty_disk s)
        as (_ & _ & _ & Hothers & _ & Hfile)
  end.
  - exists (one_by_one [0] 3). vm_compute; reflexivity.
  - destruct Hfile as [Hheld Hquiet]; [reflexivity | discriminate | reflexivity |].
    split; [exact Hheld|]. split; [exact Hquiet|].
    intros other Hother. rewrite (Hothers other Hother). apply lookup_empty.
Defined.

(** X16 at two names under one TLD, the lookup of the first failing:
    the error is printed twice and the status is 1. *)
Lemma second_revision_on_a_failed_lookup :
  exists w',
    Part002.main (failing_resolver "a.com") no_color no_color plain_quote
      (options_for false ["a"; "b"] ["com"]) (start empty_disk) = (w', inr 1) /\
    prints (console w') = ["resolver failure" +:+ nl; "resolver failure" +:+ nl] /\
    disk w' = empty_disk.
Proof.
  edestruct (second_revision_failure_is_printed_twice (failing_resolver "a.com")
               no_color no_color plain_quote (options_for false ["a"; "b"] ["com"])
               (start empty_disk))
    as (w' & Hmain & Hdisk & _ & before & Hprints & Hquiet).
  - vm_compute; reflexivity.
  - exists w'. split; [exact Hmain|]. split; [|exact Hdisk].
    rewrite Hprints, (Hquiet eq_refl). reflexivity.
Defined.

(** X17 at one registered name with [-o out.txt] on an empty disk: the
    one domain is queried. *)
Lemma second_revision_on_one_name :
  exists w' code,
    Part002.main registered_resolver no_color no_color plain_quote
      (mkOptions "" "a" "com" "out.txt" false false false ["com"] ["a"])
      (start empty_disk) = (w', inr code) /\
    lookups (console w') = ["a.com"].
Proof.
  edestruct (second_revision_spools_the_results registered_resolver
               no_color no_color plain_quote
               (mkOptions "" "a" "com" "out.txt" false false false ["com"] ["a"])
               (start empty_disk))
    as (w' & code & Hmain & Hlookups & _).
  - vm_compute; reflexivity.
  - exists w', code. split; [exact Hmain|]. rewrite Hlookups. reflexivity.
Defined.
